(** * Contextual memory and retrieval engine of the email assistant

    A shallow embedding of
      - [be/src/services/vectorStore.ts]   (class [VectorStoreService]),
      - [be/src/services/chatService.ts]   (class [ChatService]),
      - [be/src/routes/chat.ts]            (the [POST /api/chat] and
        [GET /api/chat/history] handlers),
      - [be/src/services/documentService.ts] (class [DocumentService],
        the file [unnamed/part_007]),
    together with the properties the specification states about them.
    [vectorStore.ts] holds two generations of the service; the embedding
    follows the first one (lines 1-482), whose methods take the caller's API
    key and which is the one [chatService.ts] and [documentService.ts] call.

    Conventions of the embedding.
      - The service object is an explicit [State] record; every method is a
        function in the monad [M], which threads the state and carries the
        outcome of the call ([Ok v] for a resolved promise or a normal return,
        [Err e] for a thrown exception or a rejected promise).  State changes
        made before an exception is thrown persist, as in JavaScript.
      - Everything the process cannot decide for itself is read from a [World]
        record: the clock ([new Date()]), the identifier generator
        ([uuidv4()]), and the behaviour of the embedding provider and of the
        HNSW index (does the call fail, which candidates does the similarity
        search return, with which scores).
      - A call runs to completion before the next one starts: the [await]
        points of a method are not interleaved with other requests, and a
        promise that the source starts without awaiting it runs to its end,
        its rejection being dropped where the source only logs it.  What
        two calls do to the index when their [await]s interleave is outside
        the embedding.
      - A [Date] is its number of milliseconds since the epoch, a [Z]; the
        [new Date()] that a call reads without an [await] in between read
        the same instant, [now]; [processChat] reads the clock again once the
        model has answered, and reads [later] there.
      - A string is a sequence of UTF-16 code units taken from an alphabet
        of 256 code units, which holds every white-space code unit (see
        [JS.code_unit]); its length is the [length] of JavaScript.
      - JavaScript [Map]s with string keys are [gmap string _]; arrays are
        lists. *)

From Stdlib Require Import Ascii String ZArith QArith Lia.
From stdpp Require Import gmap strings list fin_maps.

Open Scope string_scope.
Open Scope list_scope.
Open Scope stdpp_scope.

(** ** JavaScript primitives used by the services *)
Module JS.

(** Truthiness of a string: only the empty string is falsy. *)
Definition truthy_str (s : string) : bool :=
  match s with
  | EmptyString => false
  | String _ _ => true
  end.

(** Truthiness of an optional string parameter ([userApiKey?: string]):
    [undefined] and the empty string are falsy. *)
Definition truthy (o : option string) : bool :=
  match o with
  | Some s => truthy_str s
  | None => false
  end.

(** [arr.slice(-n)]: the last [n] elements; [slice(-0)] is [slice(0)], the
    whole array. *)
Definition slice_last {A : Type} (n : nat) (l : list A) : list A :=
  match n with
  | O => l
  | S _ => drop (length l - n) l
  end.

(** [arr.slice(0, n)]. *)
Definition slice_first {A : Type} (n : nat) (l : list A) : list A := take n l.

(** The UTF-16 code unit that a character of the embedding stands for.
    The alphabet has 256 code units: U+0000 to U+007F and U+0092 to U+00FF
    under their own numbers, and, under the numbers 128 to 145 (the control
    characters U+0080 to U+0091 are left out), the white-space code units
    above U+00FF: U+1680, U+2000 to U+200A, U+2028, U+2029, U+202F, U+205F,
    U+3000 and U+FEFF.  So every string that consists of white space only is
    a string of the embedding. *)
Definition code_unit (c : ascii) : N :=
  let n := N_of_ascii c in
  if (n <? 128)%N || (145 <? n)%N then n
  else if (n =? 128)%N then 5760
  else if (n <=? 139)%N then (8192 + (n - 129))%N
  else if (n =? 140)%N then 8232
  else if (n =? 141)%N then 8233
  else if (n =? 142)%N then 8239
  else if (n =? 143)%N then 8287
  else if (n =? 144)%N then 12288
  else 65279.

(** The character that stands for a code unit of the alphabet. *)
Definition of_code_unit (u : N) : ascii :=
  ascii_of_N
    (if (u <? 256)%N then u
     else if (u =? 5760)%N then 128
     else if (u <=? 8202)%N then (129 + (u - 8192))%N
     else if (u =? 8232)%N then 140
     else if (u =? 8233)%N then 141
     else if (u =? 8239)%N then 142
     else if (u =? 8287)%N then 143
     else if (u =? 12288)%N then 144
     else 145).

(** The code units that [String.prototype.trim] strips, the [WhiteSpace]
    and [LineTerminator] of ECMAScript: TAB, LF, VT, FF, CR, SPACE, NBSP,
    U+1680, U+2000 to U+200A, U+2028, U+2029, U+202F, U+205F, U+3000 and
    U+FEFF. *)
Definition is_white_space_unit (u : N) : bool :=
  ((9 <=? u)%N && (u <=? 13)%N) || (u =? 32)%N || (u =? 160)%N || (u =? 5760)%N
  || ((8192 <=? u)%N && (u <=? 8202)%N) || (u =? 8232)%N || (u =? 8233)%N
  || (u =? 8239)%N || (u =? 8287)%N || (u =? 12288)%N || (u =? 65279)%N.

Definition is_white_space (c : ascii) : bool := is_white_space_unit (code_unit c).

Fixpoint trim_start (s : string) : string :=
  match s with
  | EmptyString => EmptyString
  | String c r => if is_white_space c then trim_start r else s
  end.

(** [trim_end s]: [s] without its trailing white space. *)
Fixpoint trim_end (s : string) : string :=
  match s with
  | EmptyString => EmptyString
  | String c r =>
      match trim_end r with
      | EmptyString => if is_white_space c then EmptyString else String c EmptyString
      | r' => String c r'
      end
  end.

Definition trim (s : string) : string := trim_end (trim_start s).

(** [arr.join(sep)]. *)
Fixpoint join (sep : string) (l : list string) : string :=
  match l with
  | [] => ""
  | [x] => x
  | x :: r => x +:+ sep +:+ join sep r
  end.

End JS.

(** ** Data model ([vectorStore.ts], lines 7-27) *)

Inductive Role := user | assistant.

Global Instance Role_eq_dec : EqDecision Role.
Proof. solve_decision. Defined.

Definition role_to_string (r : Role) : string :=
  match r with
  | user => "user"
  | assistant => "assistant"
  end.

Record ChatMessage := mkChatMessage {
  id : string;
  role : Role;
  content : string;
  timestamp : Z;
  userId : string
}.

Record ConversationSession := mkSession {
  sessionId : string;
  s_userId : string;
  messages : list ChatMessage;
  lastActivity : Z;
  createdAt : Z
}.

(** The [metadata] object of a LangChain [Document].  The services write
    three shapes of metadata: the seed item ([{ id: 'init' }]), a chat
    message ([id], [role], [userId], [timestamp]) and a document chunk
    ([fileName] ... [userId], [documentId], [type]).  A property that an
    object does not have reads as [undefined], here [None]. *)
Record Metadata := mkMetadata {
  md_id : option string;
  md_role : option Role;
  md_userId : option string;
  md_timestamp : option Z;
  md_type : option string;
  md_fileName : option string;
  md_fileType : option string;
  md_chunkIndex : option nat;
  md_totalChunks : option nat;
  md_uploadedAt : option Z;
  md_documentId : option string
}.

Record Document := mkDocument {
  pageContent : string;
  metadata : Metadata
}.

(** The seed item of [HNSWLib.fromTexts(['email assistant'], [{ id: 'init' }], ...)]. *)
Definition sentinel : Document :=
  mkDocument "email assistant"
    (mkMetadata (Some "init") None None None None None None None None None None).

(** ** The service state ([vectorStore.ts], lines 30-43) *)

(** The HNSW index is the list of the documents it holds, in insertion
    order; the vectors themselves are the provider's business. *)
Record State := mkState {
  vectorStore : option (list Document);
  isInitialized : bool;
  isInitializing : bool;
  pendingMessages : list ChatMessage;
  conversationSessions : gmap string ConversationSession;
  userCurrentSessions : gmap string string
}.

Definition MAX_RECENT_MESSAGES : nat := 15.
Definition MAX_SESSION_AGE_HOURS : Z := 48.

(** The state of a freshly constructed [VectorStoreService]. *)
Definition initial_state : State :=
  mkState None false false [] ∅ ∅.

Definition set_vectorStore (v : option (list Document)) (st : State) : State :=
  mkState v (isInitialized st) (isInitializing st) (pendingMessages st)
          (conversationSessions st) (userCurrentSessions st).

Definition set_pendingMessages (p : list ChatMessage) (st : State) : State :=
  mkState (vectorStore st) (isInitialized st) (isInitializing st) p
          (conversationSessions st) (userCurrentSessions st).

Definition set_conversationSessions (c : gmap string ConversationSession) (st : State) : State :=
  mkState (vectorStore st) (isInitialized st) (isInitializing st) (pendingMessages st)
          c (userCurrentSessions st).

Definition set_userCurrentSessions (u : gmap string string) (st : State) : State :=
  mkState (vectorStore st) (isInitialized st) (isInitializing st) (pendingMessages st)
          (conversationSessions st) u.

(** ** The environment of one call *)

Record World := mkWorld {
  (** [new Date().getTime()] when the call starts *)
  now : Z;
  (** [new Date().getTime()] when [processChat], the one method that reads
      the clock on both sides of an [await], resumes with the answer of the
      model *)
  later : Z;
  (** the value of the first [uuidv4()] of the call *)
  uuid : string;
  (** the values of the later [uuidv4()] calls of the same operation, in
      call order *)
  more_uuids : nat -> string;
  (** does [HNSWLib.fromTexts] (which embeds the seed text) succeed? *)
  fromTexts_ok : bool;
  (** does [vectorStore.addDocuments(docs)] (which embeds [docs]) succeed? *)
  addDocuments_ok : list Document -> bool;
  (** [vectorStore.similaritySearchWithScore(query, k)] on an index holding
      the given documents: [None] when the call throws, otherwise the scored
      candidates.  Scores are rationals. *)
  similaritySearchWithScore : list Document -> string -> nat -> option (list (Document * Q));
  (** [llm.invoke(prompt)] followed by the output parser, as a function of
      the context and the input put into the prompt template: [None] when
      the model call fails *)
  llm_invoke : string -> string -> option string
}.

Definition set_uuid (u : string) (w : World) : World :=
  mkWorld (now w) (later w) u (more_uuids w) (fromTexts_ok w) (addDocuments_ok w)
          (similaritySearchWithScore w) (llm_invoke w).

Definition set_now (t : Z) (w : World) : World :=
  mkWorld t (later w) (uuid w) (more_uuids w) (fromTexts_ok w) (addDocuments_ok w)
          (similaritySearchWithScore w) (llm_invoke w).

(** ** Outcomes and the monad of the service methods *)

Inductive Result (A : Type) :=
| Ok (a : A)
| Err (e : string).
Arguments Ok {A} a.
Arguments Err {A} e.

Definition M (A : Type) : Type := World -> State -> Result A * State.

Global Instance M_ret : MRet M := fun A a _ st => (Ok a, st).

Global Instance M_bind : MBind M := fun A B f c w st =>
  match c w st with
  | (Ok a, st') => f a w st'
  | (Err e, st') => (Err e, st')
  end.

Definition throw {A : Type} (e : string) : M A := fun _ st => (Err e, st).
Definition get_state : M State := fun _ st => (Ok st, st).
Definition modify (f : State -> State) : M unit := fun _ st => (Ok tt, f st).
Definition ask : M World := fun w st => (Ok w, st).

(** Run [c] with [u] as the next value of [uuidv4()]. *)
Definition with_uuid {A : Type} (u : string) (c : M A) : M A :=
  fun w st => c (set_uuid u w) st.

(** Run [c] at the instant [t]. *)
Definition with_now {A : Type} (t : Z) (c : M A) : M A :=
  fun w st => c (set_now t w) st.

(** [try { body } catch (error) { handler }] *)
Definition try_catch {A : Type} (body : M A) (handler : string -> M A) : M A :=
  fun w st =>
    match body w st with
    | (Ok a, st') => (Ok a, st')
    | (Err e, st') => handler e w st'
    end.

(** [Promise.all(xs.map(f))], observed once every promise has settled: all
    the calls run, and the whole rejects with the first error if any call
    rejects. *)
Fixpoint promise_all {A : Type} (f : A -> M unit) (xs : list A) : M unit :=
  match xs with
  | [] => mret tt
  | x :: r =>
      fun w st =>
        match f x w st with
        | (Ok _, st') => promise_all f r w st'
        | (Err e, st') => (Err e, snd (promise_all f r w st'))
        end
  end.

(** ** Session store ([vectorStore.ts], lines 74-125) *)

(** [hoursSinceLastActivity > MAX_SESSION_AGE_HOURS], where
    [hoursSinceLastActivity = (now - lastActivity) / (1000 * 60 * 60)].
    Both times are integer millisecond counts, and the quotient of an
    integer by 3600000 exceeds 48 exactly when the integer exceeds
    48 * 3600000 (the double division is correctly rounded and 48 is a
    double), so the test is stated on the integers. *)
Definition expired (nowms : Z) (session : ConversationSession) : bool :=
  (MAX_SESSION_AGE_HOURS * (1000 * 60 * 60) <? nowms - lastActivity session)%Z.

(** The body of [expiredSessions.forEach(sessionId => ...)], lines 85-94. *)
Definition cleanup_session (st : State) (sid : string) : State :=
  match conversationSessions st !! sid with
  | Some session =>
      let st1 := set_conversationSessions (delete sid (conversationSessions st)) st in
      if bool_decide (userCurrentSessions st1 !! s_userId session = Some sid)
      then set_userCurrentSessions (delete (s_userId session) (userCurrentSessions st1)) st1
      else st1
  | None => st
  end.

(** The ids collected by the [for ... of this.conversationSessions.entries()]
    loop, lines 76-83. *)
Definition expiredSessions (nowms : Z) (st : State) : list string :=
  (filter (fun kv => expired nowms kv.2 = true) (map_to_list (conversationSessions st))).*1.

(** [cleanupExpiredSessions], lines 74-99. *)
Definition cleanupExpiredSessions : M unit :=
  w ← ask;
  modify (fun st => foldl cleanup_session st (expiredSessions (now w) st)).

(** A [ConversationSession] object lives in exactly one slot of
    [conversationSessions] (every [set] stores a freshly built object), so a
    reference to a session object is the key of its slot, and a mutation of
    the object is an [alter] of that slot. *)
Definition SessionRef : Type := string.

Definition deref (ref : SessionRef) (st : State) : option ConversationSession :=
  conversationSessions st !! ref.

Definition mutate_session (f : ConversationSession -> ConversationSession)
    (ref : SessionRef) : M unit :=
  modify (fun st => set_conversationSessions (alter f ref (conversationSessions st)) st).

(** [getCurrentSession], lines 101-121. *)
Definition getCurrentSession (userId : string) : M SessionRef :=
  w ← ask;
  st ← get_state;
  let sessionId := userCurrentSessions st !! userId in
  let session :=
    match sessionId with
    | Some sid => if JS.truthy_str sid then
                    match conversationSessions st !! sid with
                    | Some _ => Some sid
                    | None => None
                    end
                  else None
    | None => None
    end in
  match session with
  | Some ref => mret ref
  | None =>
      let sessionId := uuid w in
      let session := mkSession sessionId userId [] (now w) (now w) in
      modify (fun st => set_conversationSessions (<[sessionId := session]> (conversationSessions st)) st);;
      modify (fun st => set_userCurrentSessions (<[userId := sessionId]> (userCurrentSessions st)) st);;
      mret sessionId
  end.

(** The number of values that [getCurrentSession] takes from [uuidv4()]:
    one when it finds no session (lines 102-106) and creates it, none
    otherwise. *)
Definition session_draws (userId : string) (st : State) : nat :=
  match userCurrentSessions st !! userId with
  | Some sid => if JS.truthy_str sid then
                  match conversationSessions st !! sid with
                  | Some _ => 0
                  | None => 1
                  end
                else 1
  | None => 1
  end.

Definition set_lastActivity (t : Z) (s : ConversationSession) : ConversationSession :=
  mkSession (sessionId s) (s_userId s) (messages s) t (createdAt s).

Definition set_messages (ms : list ChatMessage) (s : ConversationSession) : ConversationSession :=
  mkSession (sessionId s) (s_userId s) ms (lastActivity s) (createdAt s).

(** [updateSessionActivity], lines 123-125. *)
Definition updateSessionActivity (session : SessionRef) : M unit :=
  w ← ask;
  mutate_session (set_lastActivity (now w)) session.

(** [session.messages.push(message)] *)
Definition messages_push (message : ChatMessage) (session : SessionRef) : M unit :=
  mutate_session (fun s => set_messages (messages s ++ [message]) s) session.

(** [if (session.messages.length > MAX) session.messages = session.messages.slice(-MAX)] *)
Definition keep_recent (session : SessionRef) : M unit :=
  mutate_session
    (fun s => if (MAX_RECENT_MESSAGES <? length (messages s))%nat
              then set_messages (JS.slice_last MAX_RECENT_MESSAGES (messages s)) s
              else s)
    session.

(** ** Embedding gateway ([vectorStore.ts], lines 55-66 and 174-233) *)

Definition API_KEY_REQUIRED : string :=
  "OpenAI API key is required for document embeddings. Please provide your API key in settings.".

(** [createEmbeddingsWithKey], lines 55-66: throws on a falsy key, otherwise
    builds the provider client (which has no state of its own here). *)
Definition createEmbeddingsWithKey (apiKey : string) : M unit :=
  if JS.truthy_str apiKey then mret tt else throw API_KEY_REQUIRED.

(** [HNSWLib.fromTexts([dummyText], [{ id: 'init' }], embeddings)] followed
    by the assignment to [this.vectorStore]; when the provider fails the
    assignment does not happen. *)
Definition fromTexts_seed : M unit :=
  w ← ask;
  if fromTexts_ok w then modify (set_vectorStore (Some [sentinel]))
  else throw "EmbeddingProviderError".

(** [this.vectorStore!.addDocuments(docs)]: a [TypeError] on a null store
    (the [!] is erased at run time), a rejection when the provider fails,
    otherwise the documents are appended to the index. *)
Definition store_addDocuments (docs : list Document) : M unit :=
  w ← ask;
  st ← get_state;
  match vectorStore st with
  | None => throw "TypeError"
  | Some index =>
      if addDocuments_ok w docs
      then modify (set_vectorStore (Some (index ++ docs)))
      else throw "EmbeddingProviderError"
  end.

(** The [Document] built from a chat message, lines 188-196. *)
Definition chat_document (message : ChatMessage) : Document :=
  mkDocument (role_to_string (role message) +:+ ": " +:+ content message)
    (mkMetadata (Some (id message)) (Some (role message)) (Some (userId message))
                (Some (timestamp message)) None None None None None None None).

(** [_addMessageToStore] and [_initializeVectorStoreWithKey] call each other.
    Each body is first written against the other one as a parameter; the
    recursion is tied below, and [_initializeVectorStoreWithKey_unfold]
    shows that the result satisfies the source's mutual equations. *)
Section Bodies.

Variable initializeVectorStoreWithKey : string -> M unit.
Variable addMessageToStore : ChatMessage -> option string -> M unit.

(** lines 174-204 *)
Definition addMessageToStore_body (message : ChatMessage) (userApiKey : option string) : M unit :=
  try_catch
    (if negb (JS.truthy userApiKey) then
       modify (fun st => set_pendingMessages (pendingMessages st ++ [message]) st)
     else
       st ← get_state;
       (if vectorStore st is None
        then initializeVectorStoreWithKey (default "" userApiKey)
        else mret tt);;
       let document := chat_document message in
       store_addDocuments [document])
    throw.

(** lines 206-233 *)
Definition initializeVectorStoreWithKey_body (userApiKey : string) : M unit :=
  try_catch
    (createEmbeddingsWithKey userApiKey;;
     fromTexts_seed;;
     st ← get_state;
     if (0 <? length (pendingMessages st))%nat then
       let messages := pendingMessages st in
       modify (set_pendingMessages []);;
       promise_all (fun message => addMessageToStore message (Some userApiKey)) messages
     else mret tt)
    throw.

End Bodies.

(** Inside the drain the index has just been assigned, so the nested
    [_addMessageToStore] never initialises again. *)
Definition addMessageToStore_ready : ChatMessage -> option string -> M unit :=
  addMessageToStore_body (fun _ => throw "unreachable").

Definition _initializeVectorStoreWithKey : string -> M unit :=
  initializeVectorStoreWithKey_body addMessageToStore_ready.

Definition _addMessageToStore : ChatMessage -> option string -> M unit :=
  addMessageToStore_body _initializeVectorStoreWithKey.

(** ** Public operations of [VectorStoreService] *)

Definition set_isInitialized (b : bool) (st : State) : State :=
  mkState (vectorStore st) b (isInitializing st) (pendingMessages st)
          (conversationSessions st) (userCurrentSessions st).

Definition set_isInitializing (b : bool) (st : State) : State :=
  mkState (vectorStore st) (isInitialized st) b (pendingMessages st)
          (conversationSessions st) (userCurrentSessions st).

(** [_doInitialize], lines 145-163: session management only; the pending
    messages are kept. *)
Definition _doInitialize : M unit :=
  modify (set_isInitialized true).

(** [initialize], lines 127-143. *)
Definition initialize : M unit :=
  st ← get_state;
  if isInitialized st then mret tt
  else
    modify (set_isInitializing true);;
    _doInitialize;;
    modify (set_isInitializing false).

(** A promise started and left with a [.catch(error => console.error(...))]
    handler: its rejection is logged and dropped.  In the source the promise
    settles after the call that started it has returned, while other calls
    may run, and nothing keeps two such promises from building the index
    both, the later one replacing the index of the earlier.  The embedding
    runs the promise to its end where it is started, that is, it follows
    the schedule in which no other call starts before the promise has
    settled; statements about what the index holds are about that schedule.
    The sessions are updated before the first [await] and the pending queue
    stays empty, so neither depends on the schedule. *)
Definition fire_and_forget (c : M unit) : M unit :=
  try_catch c (fun _ => mret tt).

(** [addChatMessage], lines 235-256. *)
Definition addChatMessage (message : ChatMessage) (userApiKey : option string) : M unit :=
  session ← getCurrentSession (userId message);
  messages_push message session;;
  updateSessionActivity session;;
  keep_recent session;;
  if negb (JS.truthy userApiKey) then mret tt
  else fire_and_forget (_addMessageToStore message userApiKey).

(** [addChatMessageSync], lines 259-276. *)
Definition addChatMessageSync (message : ChatMessage) (userApiKey : option string) : M unit :=
  session ← getCurrentSession (userId message);
  messages_push message session;;
  updateSessionActivity session;;
  keep_recent session;;
  if negb (JS.truthy userApiKey) then mret tt
  else _addMessageToStore message userApiKey.

(** [!query || query.trim().length === 0] *)
Definition blank (query : string) : bool :=
  negb (JS.truthy_str query) || (String.length (JS.trim query) =? 0)%nat.

(** [score > 0.6] *)
Definition above_threshold (score : Q) : bool := negb (Qle_bool score (6 # 10)).

(** The filter of lines 310-314. *)
Definition history_hit (userId : string) (r : Document * Q) : bool :=
  bool_decide (md_userId (metadata r.1) = Some userId)
  && above_threshold r.2
  && negb (bool_decide (md_id (metadata r.1) = Some "init")).

(** The filter of lines 456-460. *)
Definition document_hit (userId : string) (r : Document * Q) : bool :=
  bool_decide (md_userId (metadata r.1) = Some userId)
  && bool_decide (md_type (metadata r.1) = Some "document_chunk")
  && above_threshold r.2.

(** The filter of lines 440-443 (no query: any chunk of the user). *)
Definition document_listed (userId : string) (r : Document * Q) : bool :=
  bool_decide (md_userId (metadata r.1) = Some userId)
  && bool_decide (md_type (metadata r.1) = Some "document_chunk").

(** [await this.vectorStore!.similaritySearchWithScore(query, k)] *)
Definition store_similaritySearchWithScore (query : string) (k : nat) : M (list (Document * Q)) :=
  w ← ask;
  st ← get_state;
  match vectorStore st with
  | None => throw "TypeError"
  | Some index =>
      match similaritySearchWithScore w index query k with
      | Some results => mret results
      | None => throw "EmbeddingProviderError"
      end
  end.

(** The block [if (!this.vectorStore) { try { await init } catch { return [] } }]
    shared by both searches: [true] when the search has to return [[]]. *)
Definition ensure_store_or_bail (userApiKey : string) : M bool :=
  st ← get_state;
  if vectorStore st is None then
    try_catch (_initializeVectorStoreWithKey userApiKey;; mret false)
              (fun _ => mret true)
  else mret false.

(** [searchRelevantHistory], lines 278-324; [limit] is passed explicitly
    (the source defaults it to 5). *)
Definition searchRelevantHistory (query userId : string) (userApiKey : option string)
    (limit : nat) : M (list Document) :=
  if negb (JS.truthy userApiKey) then mret []
  else
    bail ← ensure_store_or_bail (default "" userApiKey);
    if bail : bool then mret []
    else if blank query then mret []
    else
      try_catch
        (results ← store_similaritySearchWithScore query (limit * 2);
         let relevantDocs :=
           JS.slice_first limit (fst <$> filter (fun r => history_hit userId r = true) results) in
         mret relevantDocs)
        (fun _ => mret []).

(** [searchRelevantDocuments], lines 415-470. *)
Definition searchRelevantDocuments (query userId : string) (userApiKey : option string)
    (limit : nat) : M (list Document) :=
  if negb (JS.truthy userApiKey) then mret []
  else
    bail ← ensure_store_or_bail (default "" userApiKey);
    if bail : bool then mret []
    else if blank query then
      try_catch
        (results ← store_similaritySearchWithScore "document" (limit * 5);
         mret (JS.slice_first limit
                 (fst <$> filter (fun r => document_listed userId r = true) results)))
        (fun _ => mret [])
    else
      try_catch
        (results ← store_similaritySearchWithScore query (limit * 2);
         let relevantDocs :=
           JS.slice_first limit (fst <$> filter (fun r => document_hit userId r = true) results) in
         mret relevantDocs)
        (fun _ => mret []).

(** [getRecentMessages], lines 340-345; [limit || MAX_RECENT_MESSAGES]. *)
Definition getRecentMessages (userId : string) (limit : option nat) : M (list ChatMessage) :=
  session ← getCurrentSession userId;
  let messageLimit :=
    match limit with
    | Some (S n) => S n
    | _ => MAX_RECENT_MESSAGES
    end in
  st ← get_state;
  mret (JS.slice_last messageLimit (from_option messages [] (deref session st))).

Record ChatContext := mkChatContext {
  cc_messages : list ChatMessage;
  relevantHistory : list Document;
  recentMessages : list ChatMessage
}.

(** [getChatContext], lines 326-337.  The two promises of the [Promise.all]
    touch disjoint parts of the state (index and queue, sessions). *)
Definition getChatContext (query userId : string) (userApiKey : option string) : M ChatContext :=
  relevantHistory ← searchRelevantHistory query userId userApiKey 5;
  recentMessages ← getRecentMessages userId None;
  mret (mkChatContext [] relevantHistory recentMessages).

(** [startNewConversation], lines 348-354. *)
Definition startNewConversation (userId : string) : M string :=
  modify (fun st => set_userCurrentSessions (delete userId (userCurrentSessions st)) st);;
  session ← getCurrentSession userId;
  st ← get_state;
  mret (from_option sessionId "" (deref session st)).

Record SessionInfo := mkSessionInfo {
  si_sessionId : string;
  si_messageCount : nat;
  si_lastActivity : Z
}.

(** [getSessionInfo], lines 357-369. *)
Definition getSessionInfo (userId : string) (st : State) : option SessionInfo :=
  match userCurrentSessions st !! userId with
  | None => None
  | Some sid =>
      if negb (JS.truthy_str sid) then None
      else
        match conversationSessions st !! sid with
        | None => None
        | Some session =>
            Some (mkSessionInfo (sessionId session) (length (messages session))
                                (lastActivity session))
        end
  end.

(** [createChatMessage], lines 372-384. *)
Definition createChatMessage (role : Role) (content userId : string) : M ChatMessage :=
  w ← ask;
  mret (mkChatMessage (uuid w) role content (now w) userId).

Record Stats := mkStats {
  initialized : bool;
  hasStore : bool;
  stats_pendingMessages : nat
}.

(** [getStats], lines 387-393. *)
Definition getStats (st : State) : Stats :=
  mkStats (isInitialized st) (bool_decide (vectorStore st <> None)) (length (pendingMessages st)).

(** [addDocuments], lines 396-412. *)
Definition addDocuments (documents : list Document) (userApiKey : string) : M unit :=
  if negb (JS.truthy_str userApiKey) then
    throw "OpenAI API key is required for document embeddings. Please provide your API key."
  else
    st ← get_state;
    (if vectorStore st is None then _initializeVectorStoreWithKey userApiKey else mret tt);;
    try_catch (store_addDocuments documents) throw.

(** ** [DocumentService] ([documentService.ts]) *)

(** What the upload middleware hands over: name, MIME type, the buffer read
    as UTF-8, and what [pdfParse] extracts from the buffer ([None] when it
    throws). *)
Record File := mkFile {
  originalname : string;
  mimetype : string;
  buffer : string;
  pdf_text : option string
}.

Record DocumentChunk := mkDocumentChunk {
  chunk_id : string;
  chunk_content : string;
  fileName : string;
  fileType : string;
  chunkIndex : nat;
  totalChunks : nat;
  uploadedAt : Z;
  chunk_userId : string
}.

Record ProcessedDocument := mkProcessedDocument {
  pd_id : string;
  pd_fileName : string;
  pd_fileType : string;
  chunks : list DocumentChunk;
  pd_totalChunks : nat;
  pd_uploadedAt : Z;
  pd_userId : string
}.

(** [new Document({ pageContent, metadata: { ...chunk.metadata, documentId,
    type: 'document_chunk' } })], lines 88-95. *)
Definition chunk_document (documentId : string) (chunk : DocumentChunk) : Document :=
  mkDocument (chunk_content chunk)
    (mkMetadata None None (Some (chunk_userId chunk)) None (Some "document_chunk")
                (Some (fileName chunk)) (Some (fileType chunk))
                (Some (chunkIndex chunk)) (Some (totalChunks chunk))
                (Some (uploadedAt chunk)) (Some documentId)).

Section DocumentService.

(** [this.textSplitter.splitText], a method of the langchain package. *)
Variable splitText : string -> list string.

(** [processDocument], lines 42-117.  [documentId] is the first
    [uuidv4()] of the call, the chunk ids are the following ones. *)
Definition processDocument (file : File) (userId userApiKey : string) : M ProcessedDocument :=
  try_catch
    (if negb (JS.truthy_str userApiKey) then
       throw "OpenAI API key is required for document processing. Please provide your API key."
     else
       text ← (if bool_decide (mimetype file = "text/plain") then mret (buffer file)
               else if bool_decide (mimetype file = "application/pdf") then
                 match pdf_text file with
                 | Some text => mret text
                 | None => throw "pdf-parse failed"
                 end
               else throw ("Unsupported file type: " +:+ mimetype file));
       let textChunks := splitText text in
       w ← ask;
       let documentId := uuid w in
       let uploadedAt := now w in
       let chunks :=
         imap (fun index chunk =>
                 mkDocumentChunk (more_uuids w index) chunk (originalname file) (mimetype file)
                                 index (length textChunks) uploadedAt userId)
              textChunks in
       let documents := chunk_document documentId <$> chunks in
       addDocuments documents userApiKey;;
       mret (mkProcessedDocument documentId (originalname file) (mimetype file) chunks
                                 (length textChunks) uploadedAt userId))
    (fun e => throw ("Document processing failed: " +:+ e)).

End DocumentService.

(** [searchDocuments], lines 119-131. *)
Definition searchDocuments (query userId : string) (userApiKey : option string) (limit : nat)
    : M (list Document) :=
  try_catch (searchRelevantDocuments query userId userApiKey limit) (fun _ => mret []).

(** ** [ChatService] ([chatService.ts]) and the chat route ([routes/chat.ts]) *)

Record ChatRequest := mkChatRequest {
  req_message : string;
  req_userId : string;
  req_userApiKey : option string
}.

Record ChatResponse := mkChatResponse {
  resp_id : string;
  chat_response : string;
  resp_timestamp : Z;
  relevantContext : list string
}.

Definition newline : string := String (ascii_of_nat 10) EmptyString.

(** lines 61-63 *)
Definition recentContext (cc : ChatContext) : list string :=
  (fun msg => role_to_string (role msg) +:+ ": " +:+ content msg)
    <$> JS.slice_last 8 (recentMessages cc).

(** [recentIds.has(doc.metadata.id)], where [recentIds] is the set of the
    ids of the recent messages. *)
Definition recentIds_has (recentIds : list string) (doc : Document) : bool :=
  match md_id (metadata doc) with
  | Some i => bool_decide (i ∈ recentIds)
  | None => false
  end.

(** lines 65-72 *)
Definition semanticContext (cc : ChatContext) : list string :=
  let recentIds := id <$> recentMessages cc in
  JS.slice_first 4
    (pageContent <$>
       filter (fun doc => recentIds_has recentIds doc = false) (relevantHistory cc)).

(** lines 74-76; a missing [fileName] prints as [undefined]. *)
Definition documentContext (relevantDocuments : list Document) : list string :=
  JS.slice_first 3
    ((fun doc => "Document: " +:+ default "undefined" (md_fileName (metadata doc)) +:+ newline
                 +:+ "Content: " +:+ pageContent doc) <$> relevantDocuments).

(** lines 79-93 *)
Definition contextSections (cc : ChatContext) (relevantDocuments : list Document) : list string :=
  (if (0 <? length (recentContext cc))%nat
   then ["RECENT CONVERSATION:" +:+ newline +:+ JS.join newline (recentContext cc)] else [])
  ++ (if (0 <? length (semanticContext cc))%nat
      then ["RELEVANT HISTORY:" +:+ newline +:+ JS.join (newline +:+ newline) (semanticContext cc)]
      else [])
  ++ (if (0 <? length (documentContext relevantDocuments))%nat
      then ["DOCUMENTS:" +:+ newline
            +:+ JS.join (newline +:+ newline) (documentContext relevantDocuments)]
      else []).

(** The value of the [context] slot of the prompt, lines 118-120. *)
Definition prompt_context (allContext : list string) : string :=
  if (0 <? length allContext)%nat
  then JS.join (newline +:+ newline +:+ "---" +:+ newline +:+ newline) allContext
  else "No previous conversation context or document content available.".

(** [processChat], lines 41-152.  The values of [uuidv4()] are taken in
    the order of the calls: the first is the id of the user message;
    [getCurrentSession], reached through [getChatContext], takes the second
    when it has to create the session; the id of the assistant message is
    the next one, and the two [addChatMessage] draw after it, should they
    have to create a session again.  Once the model has answered the clock
    is read again: the assistant message and the activity of the session
    carry that later instant. *)
Definition processChat (request : ChatRequest) : M ChatResponse :=
  try_catch
    (if negb (JS.truthy (req_userApiKey request)) then
       throw "OpenAI API key is required. Please provide your API key in settings."
     else
       w ← ask;
       userMessage ← createChatMessage user (req_message request) (req_userId request);
       st ← get_state;
       let drawn := session_draws (req_userId request) st in
       chatContext ← with_uuid (more_uuids w 0)
                       (getChatContext (req_message request) (req_userId request)
                                       (req_userApiKey request));
       relevantDocuments ← searchDocuments (req_message request) (req_userId request)
                                           (req_userApiKey request) 3;
       let allContext := contextSections chatContext relevantDocuments in
       responseText ← match llm_invoke w (prompt_context allContext) (req_message request) with
                      | Some text => mret text
                      | None => throw "LLM call failed"
                      end;
       with_now (later w)
         (assistantMessage ← with_uuid (more_uuids w drawn)
                               (createChatMessage assistant responseText (req_userId request));
          st ← get_state;
          with_uuid (more_uuids w (S drawn))
            (addChatMessage userMessage (req_userApiKey request));;
          with_uuid (more_uuids w (S drawn + session_draws (req_userId request) st))
            (addChatMessage assistantMessage (req_userApiKey request));;
          mret (mkChatResponse (id assistantMessage) responseText (timestamp assistantMessage)
                               allContext)))
    (fun _ => throw "Failed to process chat message").

(** The success body of the [POST /api/chat] handler, [routes/chat.ts]
    lines 39-47. *)
Record ChatReply := mkChatReply {
  reply_id : string;
  reply_message : string;
  reply_timestamp : Z;
  contextUsed : bool
}.

Definition chat_reply (response : ChatResponse) : ChatReply :=
  mkChatReply (resp_id response) (chat_response response) (resp_timestamp response)
              (0 <? length (relevantContext response))%nat.

(** The handler itself, from the parsed body on; an error of [processChat]
    is answered with an error status, which is not modelled further. *)
Definition post_chat (userId message : string) (userApiKey : option string) : M ChatReply :=
  response ← processChat (mkChatRequest message userId userApiKey);
  mret (chat_reply response).

(** ** The text splitter *)

Module RecursiveCharacterTextSplitter.

(** The text splitter used by [DocumentService]
    ([RecursiveCharacterTextSplitter], imported from the langchain package)
    is not under src/.  The specification (4.4) describes it: ordered
    separators are tried from coarse to fine (paragraph, line, word,
    character) to produce chunks near a target size, with a fixed overlap
    between consecutive chunks, in order.  The definitions of this module
    model it after these words and the library's procedure: the text is cut
    before each occurrence of the first separator it contains, pieces shorter
    than the chunk size are merged greedily into chunks, a merged chunk being
    closed when the next piece would exceed the chunk size and the next chunk
    starting with the tail of the closed one that fits into the overlap; a
    piece that is too long is split again with the finer separators. *)
Section Splitter.

Variables chunkSize chunkOverlap : nat.

(** Modelled from the spec: the splitter is not under src/.
    [text.includes(s)]. *)
Fixpoint includes (s text : string) : bool :=
  String.prefix s text
  || match text with
     | EmptyString => false
     | String _ r => includes s r
     end.

(** Modelled from the spec: the splitter is not under src/.
    [text.split("")], the character-level cut. *)
Fixpoint chars (text : string) : list string :=
  match text with
  | EmptyString => []
  | String c r => String c EmptyString :: chars r
  end.

(** Modelled from the spec: the splitter is not under src/.
    [text.split(new RegExp("(?=" + sep + ")"))] for a non-empty [sep]: the
    text is cut at every position other than 0 where [sep] starts, so that
    a piece keeps the separator it starts with. *)
Fixpoint split_before (sep text : string) : list string :=
  match text with
  | EmptyString => [EmptyString]
  | String c r =>
      match r with
      | EmptyString => [text]
      | String _ _ =>
          if String.prefix sep r then String c EmptyString :: split_before sep r
          else match split_before sep r with
               | p :: ps => String c p :: ps
               | [] => [String c EmptyString]
               end
      end
  end.

(** Modelled from the spec: the splitter is not under src/.
    [splitOnSeparator] with [keepSeparator = true]; empty pieces are dropped. *)
Definition splitOnSeparator (text separator : string) : list string :=
  filter (fun s => s <> EmptyString)
         (if JS.truthy_str separator then split_before separator text else chars text).

(** Modelled from the spec: the splitter is not under src/.
    [joinDocs]: the pieces joined and trimmed, [null] ([None]) when nothing
    is left. *)
Definition joinDocs (docs : list string) (separator : string) : option string :=
  let text := JS.trim (JS.join separator docs) in
  if JS.truthy_str text then Some text else None.

(** Modelled from the spec: the splitter is not under src/.
    The [while] loop of [mergeSplits], which keeps the fixed overlap: pieces
    are dropped from the front of [currentDoc] while the kept text exceeds
    the overlap, or still does not leave room for the next piece. *)
Fixpoint pop_front (len sepLen : nat) (currentDoc : list string) (total : nat)
    : list string * nat :=
  match currentDoc with
  | [] => ([], total)
  | d0 :: rest =>
      if (chunkOverlap <? total)%nat
         || ((chunkSize <? total + len + length currentDoc * sepLen)%nat
             && (0 <? total)%nat)
      then pop_front len sepLen rest (total - String.length d0)
      else (currentDoc, total)
  end.

(** Modelled from the spec: the splitter is not under src/.
    One round of the [for (const d of splits)] loop of [mergeSplits], on the
    triple [(docs, currentDoc, total)]: when the next piece [d] does not fit
    into the chunk size, the current chunk is closed and cut back to the
    overlap; then [d] joins the current chunk. *)
Definition merge_step (separator : string)
    (acc : list string * list string * nat) (d : string)
    : list string * list string * nat :=
  let '(docs, currentDoc, total) := acc in
  let len := String.length d in
  let '(docs, currentDoc, total) :=
    if (chunkSize <? total + len + length currentDoc * String.length separator)%nat
       && (0 <? length currentDoc)%nat
    then
      let docs := match joinDocs currentDoc separator with
                  | Some doc => docs ++ [doc]
                  | None => docs
                  end in
      let '(currentDoc, total) :=
        pop_front len (String.length separator) currentDoc total in
      (docs, currentDoc, total)
    else (docs, currentDoc, total) in
  (docs, currentDoc ++ [d], total + len).

(** Modelled from the spec: the splitter is not under src/.
    [mergeSplits]: the pieces merged into chunks near the chunk size, in
    order. *)
Definition mergeSplits (splits : list string) (separator : string) : list string :=
  let '(docs, currentDoc, total) := foldl (merge_step separator) ([], [], 0) splits in
  match joinDocs currentDoc separator with
  | Some doc => docs ++ [doc]
  | None => docs
  end.

(** Modelled from the spec: the splitter is not under src/.
    The loop of [_splitText] over the pieces: short pieces are collected in
    [goodSplits] and merged, a long piece is handed to [recurse] (the
    splitter with the finer separators) or, when there is none, kept as it
    is.  With [keepSeparator] the pieces are merged with the empty
    separator. *)
Fixpoint split_pieces (recurse : option (string -> list string))
    (splits goodSplits finalChunks : list string) : list string :=
  match splits with
  | [] =>
      if (0 <? length goodSplits)%nat
      then finalChunks ++ mergeSplits goodSplits EmptyString
      else finalChunks
  | s :: rest =>
      if (String.length s <? chunkSize)%nat
      then split_pieces recurse rest (goodSplits ++ [s]) finalChunks
      else
        let finalChunks :=
          if (0 <? length goodSplits)%nat
          then finalChunks ++ mergeSplits goodSplits EmptyString
          else finalChunks in
        let finalChunks :=
          match recurse with
          | None => finalChunks ++ [s]
          | Some split_finer => finalChunks ++ split_finer s
          end in
        split_pieces recurse rest [] finalChunks
  end.

(** Modelled from the spec: the splitter is not under src/.
    [_splitText(text, separators)]: separators are tried from coarse to
    fine, and the first one that is empty or occurs in the text is used (the
    last one when none does). *)
Fixpoint _splitText (separators : list string) (text : string) : list string :=
  match separators with
  | [] => []
  | s :: newSeparators =>
      if negb (JS.truthy_str s) then
        split_pieces None (splitOnSeparator text s) [] []
      else if includes s text then
        split_pieces (Some (_splitText newSeparators)) (splitOnSeparator text s) [] []
      else
        match newSeparators with
        | [] => split_pieces None (splitOnSeparator text s) [] []
        | _ :: _ => _splitText newSeparators text
        end
  end.

End Splitter.

End RecursiveCharacterTextSplitter.

(** The splitter built by the constructor of [DocumentService], lines 34-40. *)
Definition textSplitter_splitText : string -> list string :=
  RecursiveCharacterTextSplitter._splitText 1000 200
    [newline +:+ newline; newline; " "; ""].

(** [documentService.processDocument] *)
Definition documentService_processDocument : File -> string -> string -> M ProcessedDocument :=
  processDocument textSplitter_splitText.

Definition repeat_string (n : nat) (c : ascii) : string :=
  string_of_list_ascii (repeat c n).

(** ** More of [ChatService], [DocumentService] and the routes *)

(** The objects returned by [getChatHistory]: the fields of a
    [ChatMessage]; built from a document, a field is [undefined] ([None])
    when the metadata lacks it. *)
Record HistoryEntry := mkHistoryEntry {
  he_id : option string;
  he_role : option Role;
  he_content : string;
  he_timestamp : option Z;
  he_userId : option string
}.

(** A [ChatMessage] seen as such an object. *)
Definition entry_of_message (m : ChatMessage) : HistoryEntry :=
  mkHistoryEntry (Some (id m)) (Some (role m)) (content m) (Some (timestamp m))
                 (Some (userId m)).

(** [s] without its first [n] code units. *)
Fixpoint string_drop (n : nat) (s : string) : string :=
  match n, s with
  | S n', String _ r => string_drop n' r
  | _, _ => s
  end.

(** [s.replace(/^(user|assistant): /, '')] *)
Definition strip_role_prefix (s : string) : string :=
  if String.prefix "user: " s then string_drop 6 s
  else if String.prefix "assistant: " s then string_drop 11 s
  else s.

(** The object built from a document, [chatService.ts] lines 162-168; the
    ISO string of the metadata read back as a [Date] is the instant it was
    printed from. *)
Definition entry_of_document (doc : Document) : HistoryEntry :=
  mkHistoryEntry (md_id (metadata doc)) (md_role (metadata doc))
                 (strip_role_prefix (pageContent doc))
                 (md_timestamp (metadata doc)) (md_userId (metadata doc)).

(** [getChatHistory], [chatService.ts] lines 154-173. *)
Definition getChatHistory (userId : string) (query userApiKey : option string)
    : M (list HistoryEntry) :=
  if JS.truthy query then
    if negb (JS.truthy userApiKey) then
      recent ← getRecentMessages userId None;
      mret (entry_of_message <$> recent)
    else
      relevantDocs ← searchRelevantHistory (default "" query) userId userApiKey 10;
      mret (entry_of_document <$> relevantDocs)
  else mret [].

(** [text.includes(s)] *)
Fixpoint string_includes (s text : string) : bool :=
  String.prefix s text
  || match text with
     | EmptyString => false
     | String _ r => string_includes s r
     end.

(** What a route answers: the status and, for an error, the [error] text
    and the [code] of the JSON body. *)
Inductive HttpError := mkHttpError (status : nat) (error : string) (code : option string).

(** [POST /api/chat], [routes/chat.ts] lines 24-71, from the parsed body on:
    [auth] is [getAuth(req)?.userId]; the schema wants a message of 1 to 1000
    units. *)
Definition chat_route (auth : option string) (message : string) (userApiKey : option string)
    : M (ChatReply + HttpError) :=
  if negb (JS.truthy auth) then mret (inr (mkHttpError 401 "Unauthorized" None))
  else if negb ((1 <=? String.length message)%nat && (String.length message <=? 1000)%nat)
  then mret (inr (mkHttpError 400 "Invalid input" None))
  else
    try_catch
      (response ← processChat (mkChatRequest message (default "" auth) userApiKey);
       mret (inl (chat_reply response)))
      (fun error =>
         if string_includes "OpenAI API key is required" error then
           mret (inr (mkHttpError 400
                        "OpenAI API key is required. Please configure your API key in settings."
                        (Some "API_KEY_REQUIRED")))
         else mret (inr (mkHttpError 500 "Failed to process chat message" None))).

(** [GET /api/chat/history], [routes/chat.ts] lines 74-107, from the parsed
    query on ([limit], when present, is a number from 1 to 50, given here
    as [slice] truncates it); the answer is the pair of [messages] and
    [total]. *)
Definition history_route (auth : option string) (query : option string) (limit : option nat)
    : M (list HistoryEntry * nat + HttpError) :=
  if negb (JS.truthy auth) then mret (inr (mkHttpError 401 "Unauthorized" None))
  else
    try_catch
      (history ← getChatHistory (default "" auth) query None;
       let n := match limit with
                | Some (S n) => S n
                | _ => 20
                end in
       mret (inl (JS.slice_first n history, length history)))
      (fun _ => mret (inr (mkHttpError 500 "Failed to retrieve chat history" None))).

(** The entries of [getDocumentList]; every field but the id is read from
    the metadata of a chunk. *)
Record DocumentInfo := mkDocumentInfo {
  di_id : string;
  di_fileName : option string;
  di_fileType : option string;
  di_uploadedAt : option Z;
  di_totalChunks : option nat
}.

(** One round of [docs.forEach(doc => ...)], [documentService.ts] lines
    146-159; the [Map] is the list of its entries in insertion order. *)
Definition documentMap_add (documentMap : list (string * DocumentInfo)) (doc : Document)
    : list (string * DocumentInfo) :=
  match md_documentId (metadata doc) with
  | Some docId =>
      if JS.truthy_str docId && bool_decide (md_type (metadata doc) = Some "document_chunk")
      then
        if bool_decide (docId ∈ documentMap.*1) then documentMap
        else documentMap ++ [(docId,
                              mkDocumentInfo docId (md_fileName (metadata doc))
                                             (md_fileType (metadata doc))
                                             (md_uploadedAt (metadata doc))
                                             (md_totalChunks (metadata doc)))]
      else documentMap
  | None => documentMap
  end.

(** [getDocumentList], [documentService.ts] lines 134-166. *)
Definition getDocumentList (userId : string) (userApiKey : option string)
    : M (list DocumentInfo) :=
  try_catch
    (if negb (JS.truthy userApiKey) then mret []
     else
       docs ← searchRelevantDocuments "" userId userApiKey 100;
       mret (foldl documentMap_add [] docs).*2)
    (fun _ => mret []).

(** * Vocabulary of the statements *)

(** ** Closed forms *)

(** The documents of the queued messages that the provider accepts. *)
Definition embedded (w : World) (ms : list ChatMessage) : list Document :=
  chat_document <$> filter (fun m => addDocuments_ok w [chat_document m] = true) ms.

Definition all_embedded (w : World) (ms : list ChatMessage) : bool :=
  forallb (fun m => addDocuments_ok w [chat_document m]) ms.

(** The shape of a filtered, truncated candidate list. *)
Definition selection (hit : Document * Q -> bool) (limit : nat)
    (results : list (Document * Q)) : list Document :=
  JS.slice_first limit (fst <$> filter (fun r => hit r = true) results).

(** The world [w] with another similarity search. *)
Definition set_similaritySearchWithScore
    (f : list Document -> string -> nat -> option (list (Document * Q))) (w : World) : World :=
  mkWorld (now w) (later w) (uuid w) (more_uuids w) (fromTexts_ok w) (addDocuments_ok w) f
          (llm_invoke w).

(** The session that [getCurrentSession] finds for a user, if any. *)
Definition current_ref (u : string) (st : State) : option SessionRef :=
  match userCurrentSessions st !! u with
  | Some sid =>
      if JS.truthy_str sid then
        match conversationSessions st !! sid with
        | Some _ => Some sid
        | None => None
        end
      else None
  | None => None
  end.

(** The state after [getCurrentSession] had to create a session. *)
Definition with_new_session (u : string) (w : World) (st : State) : State :=
  set_userCurrentSessions (<[u := uuid w]> (userCurrentSessions st))
    (set_conversationSessions
       (<[uuid w := mkSession (uuid w) u [] (now w) (now w)]> (conversationSessions st)) st).

(** A session after a message was pushed, its activity refreshed and its
    history cut back to the most recent [MAX_RECENT_MESSAGES] messages. *)
Definition appended (m : ChatMessage) (t : Z) (s : ConversationSession) : ConversationSession :=
  let s1 := set_lastActivity t (set_messages (messages s ++ [m]) s) in
  if (MAX_RECENT_MESSAGES <? length (messages s1))%nat
  then set_messages (JS.slice_last MAX_RECENT_MESSAGES (messages s1)) s1
  else s1.

(** The state after the session part (the first four statements) of
    [addChatMessage] and [addChatMessageSync]. *)
Definition session_updated (m : ChatMessage) (w : World) (st : State) : State :=
  match current_ref (userId m) st with
  | Some ref =>
      set_conversationSessions (alter (appended m (now w)) ref (conversationSessions st)) st
  | None =>
      let st1 := with_new_session (userId m) w st in
      set_conversationSessions
        (alter (appended m (now w)) (uuid w) (conversationSessions st1)) st1
  end.

(** Traces of session operations. *)
Inductive Call :=
| AddChatMessage (m : ChatMessage) (key : option string) (w : World)
| AddChatMessageSync (m : ChatMessage) (key : option string) (w : World)
| GetRecentMessages (u : string) (limit : option nat) (w : World)
| StartNewConversation (u : string) (w : World)
| CleanupExpiredSessions (w : World).

Definition run_call (st : State) (c : Call) : State :=
  match c with
  | AddChatMessage m key w => (addChatMessage m key w st).2
  | AddChatMessageSync m key w => (addChatMessageSync m key w st).2
  | GetRecentMessages u limit w => (getRecentMessages u limit w st).2
  | StartNewConversation u w => (startNewConversation u w st).2
  | CleanupExpiredSessions w => (cleanupExpiredSessions w st).2
  end.

Definition run (calls : list Call) (st : State) : State := foldl run_call st calls.

(** Every stored session holds at most [MAX_RECENT_MESSAGES] messages. *)
Definition bounded (st : State) : Prop :=
  map_Forall (fun _ s => length (messages s) <= MAX_RECENT_MESSAGES) (conversationSessions st).

(** ** Chunking *)

(** The ceiling of [a / b] for a positive [b]. *)
Definition ceil_div (a b : Z) : Z := (- ((- a) / b))%Z.

(** The number of windows of width 1000 and stride 800 that cover [L] > 0
    units. *)
Definition window_count (L : nat) : nat :=
  Z.to_nat (Z.max 1 (ceil_div (Z.of_nat L - 200) 800)).

(** The [j]-th window: the units from [800 * j] up to [800 * j + 1000]. *)
Definition window (cs : list ascii) (j : nat) : list ascii := take 1000 (drop (800 * j) cs).

Definition windows (cs : list ascii) : list (list ascii) :=
  window cs <$> seq 0 (window_count (length cs)).

Definition single (c : ascii) : string := String c EmptyString.

Definition no_white_space (cs : list ascii) : Prop :=
  Forall (fun c => JS.is_white_space c = false) cs.

(** What is left to do once the loop of [mergeSplits] is over. *)
Definition finish (acc : list string * list string * nat) : list string :=
  let '(docs, currentDoc, total) := acc in
  match RecursiveCharacterTextSplitter.joinDocs currentDoc "" with
  | Some doc => docs ++ [doc]
  | None => docs
  end.

(** ** Sample data *)

(** Sample data for the concrete statements below. *)
Module Samples.

(** A provider that answers every request; the similarity search proposes
    the first [k] items of the index, each with score 0.9. *)
Definition provider_up : World :=
  mkWorld 1000 1500 "session-1" (fun n => String (ascii_of_nat (97 + n)) "-id") true
          (fun _ => true)
          (fun index _ k => Some (take k ((fun d => (d, 9 # 10)) <$> index)))
          (fun _ _ => Some "Certainly.").

(** A provider that fails every request. *)
Definition provider_down : World :=
  mkWorld 1000 1500 "session-1" (fun n => String (ascii_of_nat (97 + n)) "-id") false
          (fun _ => false)
          (fun _ _ _ => None)
          (fun _ _ => None).

Definition hello_alice : ChatMessage := mkChatMessage "m-1" user "quarterly budget" 10 "alice".
Definition hello_bob : ChatMessage := mkChatMessage "m-2" user "quarterly budget" 20 "bob".

(** An index holding the seed item and one message of each user. *)
Definition indexed : State :=
  set_vectorStore (Some [sentinel; chat_document hello_alice; chat_document hello_bob])
                  initial_state.

(** A provider that builds the index but rejects every later embedding. *)
Definition provider_flaky : World :=
  mkWorld 1000 1500 "session-1" (fun n => String (ascii_of_nat (97 + n)) "-id") true
          (fun _ => false)
          (fun _ _ _ => None)
          (fun _ _ => None).

(** Two messages waiting in the pending queue, no index yet. *)
Definition queued : State := set_pendingMessages [hello_alice; hello_bob] initial_state.

Definition hour : Z := 3600000.

(** The working provider at time [t], drawing [sid] from [uuidv4()]. *)
Definition at_time (t : Z) (sid : string) : World :=
  mkWorld t (t + 500) sid (more_uuids provider_up) true (fun _ => true)
          (similaritySearchWithScore provider_up) (llm_invoke provider_up).

End Samples.

(** Alice wrote at time 0 and Bob two hours later; the sweep runs 49 hours
    after Alice's message, so her session has been idle for 49 hours and
    Bob's for 47. *)
Definition two_sessions : State :=
  run [AddChatMessage Samples.hello_alice None (Samples.at_time 0 "s-alice");
       AddChatMessage Samples.hello_bob None (Samples.at_time (2 * Samples.hour) "s-bob")]
      initial_state.

(** Alice has sent one message (without a credential); nothing is indexed. *)
Definition one_recent_message : State :=
  (addChatMessage Samples.hello_alice None (Samples.at_time 0 "s-alice") initial_state).2.

(** A one-letter note, and a file of two paragraphs of 900 letters. *)
Definition note : File := mkFile "note.txt" "text/plain" "a" None.

Definition two_paragraphs : File :=
  mkFile "paragraphs.txt" "text/plain"
         (repeat_string 900 "a" +:+ newline +:+ newline +:+ repeat_string 900 "b") None.

(** A file of 2500 letters. *)
Definition letters_2500 : File :=
  mkFile "letters.txt" "text/plain" (repeat_string 2500 "a") None.

(** ** How the index, the queue and the sessions evolve *)

(** An indexed item that carries the id of a user. *)
Definition tagged (d : Document) : Prop := is_Some (md_userId (metadata d)).

(** The index before and after a piece of work: it stays absent, it is
    built (seed item first), or it grows at its end; what is added carries
    a user id. *)
Inductive index_grows : option (list Document) -> option (list Document) -> Prop :=
| grows_absent : index_grows None None
| grows_built more : Forall tagged more -> index_grows None (Some (sentinel :: more))
| grows_more index more : Forall tagged more -> index_grows (Some index) (Some (index ++ more)).

Definition evolves (st st' : State) : Prop :=
  (pendingMessages st = [] -> pendingMessages st' = [])
  /\ index_grows (vectorStore st) (vectorStore st').

(** A computation all of whose runs make the state evolve. *)
Definition evolving {A : Type} (c : M A) : Prop := forall w st, evolves st (c w st).2.

(** The operations of the three services that their callers (the routes
    and the services themselves) use, together with the hourly sweep, each
    with the environment of its call. *)
Inductive Op :=
| OpInitialize (w : World)
| OpAddChatMessage (m : ChatMessage) (key : option string) (w : World)
| OpAddChatMessageSync (m : ChatMessage) (key : option string) (w : World)
| OpSearchRelevantHistory (query u : string) (key : option string) (limit : nat) (w : World)
| OpSearchRelevantDocuments (query u : string) (key : option string) (limit : nat) (w : World)
| OpSearchDocuments (query u : string) (key : option string) (limit : nat) (w : World)
| OpGetChatContext (query u : string) (key : option string) (w : World)
| OpGetRecentMessages (u : string) (limit : option nat) (w : World)
| OpStartNewConversation (u : string) (w : World)
| OpCleanupExpiredSessions (w : World)
| OpProcessDocument (file : File) (u key : string) (w : World)
| OpGetDocumentList (u : string) (key : option string) (w : World)
| OpProcessChat (request : ChatRequest) (w : World)
| OpGetChatHistory (u : string) (query key : option string) (w : World).

Definition step (st : State) (op : Op) : State :=
  match op with
  | OpInitialize w => (initialize w st).2
  | OpAddChatMessage m key w => (addChatMessage m key w st).2
  | OpAddChatMessageSync m key w => (addChatMessageSync m key w st).2
  | OpSearchRelevantHistory query u key limit w => (searchRelevantHistory query u key limit w st).2
  | OpSearchRelevantDocuments query u key limit w =>
      (searchRelevantDocuments query u key limit w st).2
  | OpSearchDocuments query u key limit w => (searchDocuments query u key limit w st).2
  | OpGetChatContext query u key w => (getChatContext query u key w st).2
  | OpGetRecentMessages u limit w => (getRecentMessages u limit w st).2
  | OpStartNewConversation u w => (startNewConversation u w st).2
  | OpCleanupExpiredSessions w => (cleanupExpiredSessions w st).2
  | OpProcessDocument file u key w => (documentService_processDocument file u key w st).2
  | OpGetDocumentList u key w => (getDocumentList u key w st).2
  | OpProcessChat request w => (processChat request w st).2
  | OpGetChatHistory u query key w => (getChatHistory u query key w st).2
  end.

(** The state of the service after a sequence of operations. *)
Definition after (ops : list Op) : State := foldl step initial_state ops.

(** Work that leaves the sessions and the pointers to them alone. *)
Definition same_sessions (st st' : State) : Prop :=
  conversationSessions st' = conversationSessions st
  /\ userCurrentSessions st' = userCurrentSessions st.

Definition session_neutral {A : Type} (c : M A) : Prop :=
  forall w st, same_sessions st (c w st).2.

(** * Properties *)

(** ** The monad *)

Ltac munfold :=
  unfold mbind, M_bind, mret, M_ret, throw, get_state, modify, ask, try_catch,
         with_uuid, fire_and_forget in *.

Lemma bind_run {A B : Type} (c : M A) (f : A -> M B) w st :
  (c ≫= f) w st =
    match c w st with
    | (Ok a, st') => f a w st'
    | (Err e, st') => (Err e, st')
    end.
Proof. reflexivity. Qed.

Lemma bind_Ok {A B : Type} (c : M A) (f : A -> M B) w st b st' :
  (c ≫= f) w st = (Ok b, st') ->
  exists a st1, c w st = (Ok a, st1) /\ f a w st1 = (Ok b, st').
Proof.
  rewrite bind_run. destruct (c w st) as [[a|e] st1]; [|discriminate].
  intros H. exists a, st1. split; [reflexivity|exact H].
Qed.

Lemma try_catch_throw_Ok {A : Type} (c : M A) (e' : string) w st a st' :
  try_catch c (fun _ => throw e') w st = (Ok a, st') -> c w st = (Ok a, st').
Proof.
  unfold try_catch, throw. destruct (c w st) as [[a0|e] st1]; [auto|discriminate].
Qed.

Lemma try_catch_rethrow {A : Type} (c : M A) w st :
  try_catch c throw w st = c w st.
Proof. munfold. destruct (c w st) as [[a|e] st']; reflexivity. Qed.

(** ** The embedding gateway *)

Lemma addMessageToStore_ready_spec m key w st index :
  JS.truthy_str key = true ->
  vectorStore st = Some index ->
  addMessageToStore_ready m (Some key) w st =
    if addDocuments_ok w [chat_document m]
    then (Ok tt, set_vectorStore (Some (index ++ [chat_document m])) st)
    else (Err "EmbeddingProviderError", st).
Proof.
  intros Hk Hs. unfold addMessageToStore_ready, addMessageToStore_body.
  rewrite try_catch_rethrow. simpl. rewrite Hk. simpl.
  unfold store_addDocuments. munfold. rewrite Hs. simpl. rewrite Hs.
  destruct (addDocuments_ok w [chat_document m]); reflexivity.
Qed.

Lemma drain_spec key w ms : forall st index,
  JS.truthy_str key = true ->
  vectorStore st = Some index ->
  let r := promise_all (fun m => addMessageToStore_ready m (Some key)) ms w st in
  r.2 = set_vectorStore (Some (index ++ embedded w ms)) st
  /\ (all_embedded w ms = true -> r.1 = Ok tt)
  /\ (all_embedded w ms = false -> r.1 = Err "EmbeddingProviderError").
Proof.
  induction ms as [|m ms IH]; intros st index Hk Hs; simpl.
  - unfold embedded; simpl. rewrite app_nil_r. munfold. simpl.
    split; [destruct st; unfold set_vectorStore; simpl in *; congruence|].
    split; [reflexivity|discriminate].
  - rewrite (addMessageToStore_ready_spec m key w st index Hk Hs).
    unfold embedded, all_embedded in *. simpl.
    destruct (addDocuments_ok w [chat_document m]) eqn:Hm; simpl.
    + destruct (IH (set_vectorStore (Some (index ++ [chat_document m])) st)
                   (index ++ [chat_document m]) Hk eq_refl) as (H1 & H2 & H3).
      rewrite filter_cons_True by exact Hm.
      destruct (promise_all _ ms w _) as [r st'] eqn:Hr. simpl in *.
      split; [|split].
      * rewrite H1, <- app_assoc. destruct st; reflexivity.
      * intros Hall. rewrite (H2 Hall). reflexivity.
      * intros Hall. rewrite (H3 Hall). reflexivity.
    + destruct (IH st index Hk Hs) as (H1 & H2 & H3).
      rewrite filter_cons_False by (rewrite Hm; discriminate).
      destruct (promise_all _ ms w _) as [r st'] eqn:Hr. simpl in *.
      split; [exact H1|]. split; [discriminate|reflexivity].
Qed.

(** What [_initializeVectorStoreWithKey] does, in closed form. *)
Lemma initializeVectorStoreWithKey_spec key w st :
  _initializeVectorStoreWithKey key w st =
    if JS.truthy_str key then
      if fromTexts_ok w then
        (if all_embedded w (pendingMessages st) then Ok tt else Err "EmbeddingProviderError",
         set_pendingMessages []
           (set_vectorStore (Some (sentinel :: embedded w (pendingMessages st))) st))
      else (Err "EmbeddingProviderError", st)
    else (Err API_KEY_REQUIRED, st).
Proof.
  unfold _initializeVectorStoreWithKey, initializeVectorStoreWithKey_body.
  rewrite try_catch_rethrow. unfold createEmbeddingsWithKey, fromTexts_seed.
  destruct (JS.truthy_str key) eqn:Hk; munfold; simpl; [|reflexivity].
  destruct (fromTexts_ok w) eqn:Hf; simpl; [|reflexivity].
  destruct (pendingMessages st) as [|m ms] eqn:Hp.
  - simpl. destruct st; simpl in *; subst; reflexivity.
  - pose proof (drain_spec key w (m :: ms)
                  (set_pendingMessages [] (set_vectorStore (Some [sentinel]) st))
                  [sentinel] Hk eq_refl) as (H1 & H2 & H3).
    change (0 <? length (m :: ms))%nat with true. cbv iota.
    match goal with |- ?lhs = _ => destruct lhs as [r st2] end.
    cbn [fst snd] in H1, H2, H3.
    rewrite H1. destruct (all_embedded w (m :: ms)) eqn:Ha.
    + rewrite (H2 eq_refl). destruct st; reflexivity.
    + rewrite (H3 eq_refl). destruct st; reflexivity.
Qed.

(** With an index in place, [_addMessageToStore] does not reach its
    initialisation branch. *)
Lemma addMessageToStore_with_store m key w st :
  vectorStore st <> None ->
  _addMessageToStore m key w st = addMessageToStore_ready m key w st.
Proof.
  intros Hs. unfold _addMessageToStore, addMessageToStore_ready, addMessageToStore_body.
  rewrite !try_catch_rethrow.
  destruct (negb (JS.truthy key)); [reflexivity|].
  munfold. simpl. destruct (vectorStore st); [reflexivity|congruence].
Qed.

Lemma addMessageToStore_ready_keeps_store m key w st :
  vectorStore st <> None ->
  vectorStore (addMessageToStore_ready m key w st).2 <> None.
Proof.
  intros Hs. unfold addMessageToStore_ready, addMessageToStore_body.
  rewrite try_catch_rethrow.
  destruct (negb (JS.truthy key)); munfold; simpl; [exact Hs|].
  unfold store_addDocuments. munfold.
  destruct (vectorStore st) eqn:E; [|congruence]. simpl. rewrite E.
  destruct (addDocuments_ok w _); simpl; congruence.
Qed.

Lemma promise_all_with_store key w ms : forall st,
  vectorStore st <> None ->
  promise_all (fun m => _addMessageToStore m key) ms w st
  = promise_all (fun m => addMessageToStore_ready m key) ms w st.
Proof.
  induction ms as [|m ms IH]; intros st Hs; simpl; [reflexivity|].
  rewrite (addMessageToStore_with_store m key w st Hs).
  pose proof (addMessageToStore_ready_keeps_store m key w st Hs) as Hk.
  destruct (addMessageToStore_ready m key w st) as [[[]|e] st1]; simpl in *;
    rewrite (IH st1 Hk); reflexivity.
Qed.

(** The two definitions satisfy the mutual equations of the source:
    [_initializeVectorStoreWithKey] drains through [_addMessageToStore]
    itself. *)
Lemma _initializeVectorStoreWithKey_unfold key w st :
  _initializeVectorStoreWithKey key w st
  = initializeVectorStoreWithKey_body _addMessageToStore key w st.
Proof.
  unfold _initializeVectorStoreWithKey, initializeVectorStoreWithKey_body.
  rewrite !try_catch_rethrow. unfold createEmbeddingsWithKey, fromTexts_seed.
  destruct (JS.truthy_str key); munfold; simpl; [|reflexivity].
  destruct (fromTexts_ok w); simpl; [|reflexivity].
  destruct (0 <? length (pendingMessages st))%nat; [|reflexivity].
  rewrite promise_all_with_store; [reflexivity|]. simpl. discriminate.
Qed.

(** Neither function touches the sessions. *)
Lemma initializeVectorStoreWithKey_sessions key w st :
  conversationSessions (_initializeVectorStoreWithKey key w st).2 = conversationSessions st
  /\ userCurrentSessions (_initializeVectorStoreWithKey key w st).2 = userCurrentSessions st.
Proof.
  rewrite initializeVectorStoreWithKey_spec.
  destruct (JS.truthy_str key), (fromTexts_ok w); simpl; auto.
Qed.

Lemma addMessageToStore_sessions m key w st :
  conversationSessions (_addMessageToStore m key w st).2 = conversationSessions st
  /\ userCurrentSessions (_addMessageToStore m key w st).2 = userCurrentSessions st.
Proof.
  unfold _addMessageToStore, addMessageToStore_body. rewrite try_catch_rethrow.
  destruct (negb (JS.truthy key)); munfold; simpl; [auto|].
  pose proof (initializeVectorStoreWithKey_sessions (default "" key) w st) as [H1 H2].
  unfold store_addDocuments. munfold.
  destruct (vectorStore st) eqn:E; simpl.
  - rewrite E. destruct (addDocuments_ok w _); simpl; auto.
  - destruct (_initializeVectorStoreWithKey (default "" key) w st) as [[[]|e] st1];
      simpl in *; [|auto].
    destruct (vectorStore st1); simpl; [|auto].
    destruct (addDocuments_ok w _); simpl; auto.
Qed.

(** A call with a credential never puts a message on the queue. *)
Lemma addMessageToStore_pending m key w st :
  JS.truthy key = true ->
  pendingMessages (_addMessageToStore m key w st).2 = pendingMessages st
  \/ pendingMessages (_addMessageToStore m key w st).2 = [].
Proof.
  intros Hk. unfold _addMessageToStore, addMessageToStore_body. rewrite try_catch_rethrow.
  rewrite Hk. munfold; simpl.
  unfold store_addDocuments. munfold.
  destruct (vectorStore st) eqn:E; simpl.
  - rewrite E. destruct (addDocuments_ok w _); simpl; auto.
  - rewrite initializeVectorStoreWithKey_spec.
    destruct (JS.truthy_str (default "" key)); simpl; [|auto].
    destruct (fromTexts_ok w); simpl; [|auto].
    destruct (all_embedded w (pendingMessages st)); simpl; [|auto].
    destruct (addDocuments_ok w _); simpl; auto.
Qed.

(** ** Search *)

Lemma ensure_store_or_bail_spec key w st :
  ensure_store_or_bail key w st =
    match vectorStore st with
    | Some _ => (Ok false, st)
    | None =>
        (Ok (if (_initializeVectorStoreWithKey key w st).1 is Ok _ then false else true),
         (_initializeVectorStoreWithKey key w st).2)
    end.
Proof.
  unfold ensure_store_or_bail. munfold.
  destruct (vectorStore st); [reflexivity|].
  destruct (_initializeVectorStoreWithKey key w st) as [[[]|e] st1]; reflexivity.
Qed.

Lemma selection_elem hit limit results d :
  d ∈ selection hit limit results -> exists score, hit (d, score) = true.
Proof.
  unfold selection, JS.slice_first. intros Hd.
  apply elem_of_take in Hd as (i & Hd & _).
  apply list_elem_of_lookup_2, list_elem_of_fmap in Hd as ([d' score] & -> & Hd).
  apply list_elem_of_filter in Hd as [Hd _].
  exists score. exact Hd.
Qed.

(** Every outcome of [searchRelevantHistory] is a resolved promise, holding
    the empty list or a selection of candidates by [history_hit]. *)
Lemma searchRelevantHistory_shape query u key limit w st :
  exists docs, (searchRelevantHistory query u key limit w st).1 = Ok docs
    /\ (docs = [] \/ exists results, docs = selection (history_hit u) limit results).
Proof.
  unfold searchRelevantHistory.
  destruct (negb (JS.truthy key)); [exists []; simpl; auto|].
  unfold mbind at 1, M_bind. rewrite ensure_store_or_bail_spec.
  assert (Hsearch : forall st1,
    exists docs,
      ((if blank query then mret []
        else try_catch
               (results ← store_similaritySearchWithScore query (limit * 2);
                mret (JS.slice_first limit
                        (fst <$> filter (fun r => history_hit u r = true) results)))
               (fun _ => mret [])) w st1).1 = Ok docs
      /\ (docs = [] \/ exists results, docs = selection (history_hit u) limit results)).
  { intros st1. destruct (blank query); [exists []; simpl; auto|].
    unfold store_similaritySearchWithScore. munfold.
    destruct (vectorStore st1) as [index|]; [|exists []; simpl; auto].
    destruct (similaritySearchWithScore w index query (limit * 2)) as [results|];
      [|exists []; simpl; auto].
    eexists. simpl. split; [reflexivity|]. right. exists results. reflexivity. }
  destruct (vectorStore st).
  - apply Hsearch.
  - destruct ((_initializeVectorStoreWithKey (default "" key) w st).1).
    + apply Hsearch.
    + exists []. simpl. auto.
Qed.

Lemma searchRelevantDocuments_shape query u key limit w st :
  exists docs, (searchRelevantDocuments query u key limit w st).1 = Ok docs
    /\ (docs = []
        \/ (exists results, docs = selection (document_hit u) limit results)
        \/ (exists results, docs = selection (document_listed u) limit results)).
Proof.
  unfold searchRelevantDocuments.
  destruct (negb (JS.truthy key)); [exists []; simpl; auto|].
  unfold mbind at 1, M_bind. rewrite ensure_store_or_bail_spec.
  assert (Hsearch : forall st1,
    exists docs,
      ((if blank query then
          try_catch
            (results ← store_similaritySearchWithScore "document" (limit * 5);
             mret (JS.slice_first limit
                     (fst <$> filter (fun r => document_listed u r = true) results)))
            (fun _ => mret [])
        else try_catch
               (results ← store_similaritySearchWithScore query (limit * 2);
                mret (JS.slice_first limit
                        (fst <$> filter (fun r => document_hit u r = true) results)))
               (fun _ => mret [])) w st1).1 = Ok docs
      /\ (docs = []
          \/ (exists results, docs = selection (document_hit u) limit results)
          \/ (exists results, docs = selection (document_listed u) limit results))).
  { intros st1. unfold store_similaritySearchWithScore. munfold.
    destruct (blank query).
    - destruct (vectorStore st1) as [index|]; [|exists []; simpl; auto].
      destruct (similaritySearchWithScore w index "document" (limit * 5)) as [results|];
        [|exists []; simpl; auto].
      eexists. simpl. split; [reflexivity|]. right. right. exists results. reflexivity.
    - destruct (vectorStore st1) as [index|]; [|exists []; simpl; auto].
      destruct (similaritySearchWithScore w index query (limit * 2)) as [results|];
        [|exists []; simpl; auto].
      eexists. simpl. split; [reflexivity|]. right. left. exists results. reflexivity. }
  destruct (vectorStore st).
  - apply Hsearch.
  - destruct ((_initializeVectorStoreWithKey (default "" key) w st).1).
    + apply Hsearch.
    + exists []. simpl. auto.
Qed.

Lemma history_hit_user u d score :
  history_hit u (d, score) = true -> md_userId (metadata d) = Some u.
Proof.
  unfold history_hit. simpl. intros H.
  apply andb_prop in H as [H _]. apply andb_prop in H as [H _].
  apply bool_decide_eq_true in H. exact H.
Qed.

Lemma document_hit_user u d score :
  document_hit u (d, score) = true -> md_userId (metadata d) = Some u.
Proof.
  unfold document_hit. simpl. intros H.
  apply andb_prop in H as [H _]. apply andb_prop in H as [H _].
  apply bool_decide_eq_true in H. exact H.
Qed.

Lemma document_listed_user u d score :
  document_listed u (d, score) = true -> md_userId (metadata d) = Some u.
Proof.
  unfold document_listed. simpl. intros H.
  apply andb_prop in H as [H _]. apply bool_decide_eq_true in H. exact H.
Qed.

(** C1.  Whatever the index holds and whatever candidates the similarity
    search proposes, every document returned by [searchRelevantHistory] or
    [searchRelevantDocuments] to user [u] carries [userId = u] in its
    metadata, and the seed item (metadata [{ id: 'init' }]) is not among
    them. *)
Theorem search_returns_only_own_documents query u key limit w st docs st' :
  searchRelevantHistory query u key limit w st = (Ok docs, st')
  \/ searchRelevantDocuments query u key limit w st = (Ok docs, st') ->
  (forall d, d ∈ docs -> md_userId (metadata d) = Some u) /\ sentinel ∉ docs.
Proof.
  intros H.
  assert (Hown : forall d, d ∈ docs -> md_userId (metadata d) = Some u).
  { intros d Hd. destruct H as [H|H].
    - destruct (searchRelevantHistory_shape query u key limit w st) as (docs' & Hr & Hshape).
      rewrite H in Hr. simpl in Hr. injection Hr as <-.
      destruct Hshape as [->|[results ->]]; [by apply elem_of_nil in Hd|].
      apply selection_elem in Hd as [score Hd]. eapply history_hit_user, Hd.
    - destruct (searchRelevantDocuments_shape query u key limit w st) as (docs' & Hr & Hshape).
      rewrite H in Hr. simpl in Hr. injection Hr as <-.
      destruct Hshape as [->|[[results ->]|[results ->]]]; [by apply elem_of_nil in Hd| |];
        apply selection_elem in Hd as [score Hd].
      + eapply document_hit_user, Hd.
      + eapply document_listed_user, Hd. }
  split; [exact Hown|].
  intros Hs. apply Hown in Hs. discriminate Hs.
Qed.

Lemma search_returns_only_own_documents_witness :
  (forall d, d ∈ [chat_document Samples.hello_alice] -> md_userId (metadata d) = Some "alice")
  /\ sentinel ∉ [chat_document Samples.hello_alice].
Proof.
  apply (search_returns_only_own_documents "budget" "alice" (Some "sk-1") 5
           Samples.provider_up Samples.indexed _ Samples.indexed).
  left. vm_compute. reflexivity.
Defined.

Lemma initializeVectorStoreWithKey_no_search f key w st :
  _initializeVectorStoreWithKey key (set_similaritySearchWithScore f w) st
  = _initializeVectorStoreWithKey key w st.
Proof. rewrite !initializeVectorStoreWithKey_spec. reflexivity. Qed.




(** No two characters stand for the same code unit. *)
Lemma of_code_unit_code_unit c : JS.of_code_unit (JS.code_unit c) = c.
Proof. destruct c as [[] [] [] [] [] [] [] []]; reflexivity. Qed.

Lemma code_unit_inj c c' : JS.code_unit c = JS.code_unit c' -> c = c'.
Proof.
  intros H. rewrite <- (of_code_unit_code_unit c), <- (of_code_unit_code_unit c'), H.
  reflexivity.
Qed.

(** Every code unit that [trim] strips is in the alphabet: the white space
    of the embedding is the white space of JavaScript. *)
Lemma white_space_in_alphabet u :
  JS.is_white_space_unit u = true ->
  JS.code_unit (JS.of_code_unit u) = u /\ JS.is_white_space (JS.of_code_unit u) = true.
Proof.
  intros H.
  assert (Hc : JS.code_unit (JS.of_code_unit u) = u); [|split; [exact Hc|]].
  2:{ unfold JS.is_white_space. rewrite Hc. exact H. }
  unfold JS.is_white_space_unit in H.
  repeat (apply orb_prop in H as [H|H]);
    try (apply N.eqb_eq in H; subst u; reflexivity);
    apply andb_prop in H as [H1 H2]; apply N.leb_le in H1, H2.
  - assert (Hu : (u = 9 \/ u = 10 \/ u = 11 \/ u = 12 \/ u = 13)%N) by lia.
    destruct Hu as [-> | [-> | [-> | [-> | ->] ] ] ]; reflexivity.
  - assert (Hu : (u = 8192 \/ u = 8193 \/ u = 8194 \/ u = 8195 \/ u = 8196 \/ u = 8197
                 \/ u = 8198 \/ u = 8199 \/ u = 8200 \/ u = 8201 \/ u = 8202)%N) by lia.
    destruct Hu as [-> | [-> | [-> | [-> | [-> | [-> | [-> | [-> | [-> | [-> | ->] ] ] ] ] ] ] ] ] ];
      reflexivity.
Qed.

Lemma trim_start_nil query :
  JS.trim_start query = EmptyString
  <-> Forall (fun c => JS.is_white_space c = true) (list_ascii_of_string query).
Proof.
  induction query as [|c r IH]; simpl; [split; [constructor|reflexivity]|].
  destruct (JS.is_white_space c) eqn:Hc.
  - rewrite IH. split; [intros H; constructor; assumption|].
    intros H. inversion H; assumption.
  - split; [discriminate|]. intros H. inversion H; congruence.
Qed.

Lemma trim_end_nil s :
  JS.trim_end s = EmptyString
  <-> Forall (fun c => JS.is_white_space c = true) (list_ascii_of_string s).
Proof.
  induction s as [|c r IH]; simpl; [split; [constructor|reflexivity]|].
  destruct (JS.trim_end r) as [|c' r'] eqn:Hr.
  - destruct (JS.is_white_space c) eqn:Hc.
    + split; [intros _; constructor; [exact Hc|apply IH; reflexivity]|reflexivity].
    + split; [discriminate|]. intros H. inversion H; congruence.
  - split; [discriminate|]. intros H. inversion H as [|? ? _ Hall]; subst.
    apply IH in Hall. discriminate.
Qed.

Lemma trim_start_head query :
  match JS.trim_start query with
  | EmptyString => True
  | String c _ => JS.is_white_space c = false
  end.
Proof.
  induction query as [|c r IH]; simpl; [exact I|].
  destruct (JS.is_white_space c) eqn:Hc; [exact IH|exact Hc].
Qed.

(** The test of lines 298-302 holds exactly of the queries that are empty
    or consist of white space only. *)
Lemma blank_iff_white_space query :
  blank query = true
  <-> Forall (fun c => JS.is_white_space c = true) (list_ascii_of_string query).
Proof.
  unfold blank, JS.trim. destruct query as [|c r]; [split; [constructor|reflexivity]|].
  change (negb (JS.truthy_str (String c r))) with false. cbn [orb].
  rewrite Nat.eqb_eq, <- trim_start_nil. split.
  - intros H. pose proof (trim_start_head (String c r)) as Hh.
    destruct (JS.trim_start (String c r)) as [|c' r'] eqn:Ht; [reflexivity|].
    assert (He : JS.trim_end (String c' r') = EmptyString).
    { destruct (JS.trim_end (String c' r')); [reflexivity|discriminate H]. }
    apply trim_end_nil in He. inversion He; congruence.
  - intros ->. reflexivity.
Qed.

(** C10, as stated, fails: a blank query sent with a credential while no
    index exists builds the index before the query is looked at. *)
Lemma blank_query_builds_index :
  blank "   " = true
  /\ searchRelevantHistory "   " "alice" (Some "sk-1") 5 Samples.provider_up initial_state
     = (Ok [], set_vectorStore (Some [sentinel]) initial_state)
  /\ vectorStore initial_state = None
  /\ vectorStore (searchRelevantHistory "   " "alice" (Some "sk-1") 5
                    Samples.provider_up initial_state).2 = Some [sentinel].
Proof. vm_compute. repeat split; reflexivity. Qed.

Lemma ensure_store_or_bail_no_search f key w st :
  ensure_store_or_bail key (set_similaritySearchWithScore f w) st
  = ensure_store_or_bail key w st.
Proof.
  rewrite !ensure_store_or_bail_spec, initializeVectorStoreWithKey_no_search. reflexivity.
Qed.

Lemma searchRelevantHistory_blank query u key limit w st :
  blank query = true ->
  JS.truthy key = true ->
  searchRelevantHistory query u key limit w st
  = (Ok [], (ensure_store_or_bail (default "" key) w st).2).
Proof.
  intros Hb Hk. unfold searchRelevantHistory. rewrite Hk. cbn [negb].
  rewrite bind_run, Hb, ensure_store_or_bail_spec.
  destruct (vectorStore st); [reflexivity|].
  destruct (_initializeVectorStoreWithKey (default "" key) w st) as [[[]|e] st1]; reflexivity.
Qed.

(** C10, amended.  On a query that is empty or made only of code units
    that [trim] strips (these are the queries that pass the test of lines
    298-302, see [blank_iff_white_space], and all of them are strings of
    the embedding, see [white_space_in_alphabet]), [searchRelevantHistory]
    resolves with the empty list, never consults the similarity search, and
    leaves the sessions alone.  It leaves the whole state alone when the
    credential is missing or the index exists already; otherwise it first
    attempts to build the index, and the state is the one that attempt
    leaves. *)
Theorem blank_query_resolves_empty query u key limit w st :
  Forall (fun c => JS.is_white_space c = true) (list_ascii_of_string query) ->
  let r := searchRelevantHistory query u key limit w st in
  r.1 = Ok []
  /\ (forall f, searchRelevantHistory query u key limit (set_similaritySearchWithScore f w) st = r)
  /\ conversationSessions r.2 = conversationSessions st
  /\ userCurrentSessions r.2 = userCurrentSessions st
  /\ (JS.truthy key = false \/ vectorStore st <> None -> r.2 = st)
  /\ (JS.truthy key = true -> vectorStore st = None ->
      r.2 = (_initializeVectorStoreWithKey (default "" key) w st).2).
Proof.
  intros Hb. apply blank_iff_white_space in Hb. cbv zeta.
  destruct (JS.truthy key) eqn:Hk.
  - rewrite (searchRelevantHistory_blank query u key limit w st Hb Hk).
    split; [reflexivity|]. split.
    { intros f. rewrite (searchRelevantHistory_blank _ _ _ _ _ _ Hb Hk).
      rewrite ensure_store_or_bail_no_search. reflexivity. }
    rewrite ensure_store_or_bail_spec. cbn [snd].
    pose proof (initializeVectorStoreWithKey_sessions (default "" key) w st) as [H1 H2].
    destruct (vectorStore st) eqn:Hs; cbn [snd].
    + repeat split; try reflexivity. congruence.
    + repeat split; try assumption. intros [H|H]; congruence.
  - unfold searchRelevantHistory. rewrite Hk. cbn [negb]. simpl.
    repeat split; try reflexivity. congruence.
Qed.

Lemma blank_query_resolves_empty_witness :
  (searchRelevantHistory (String (JS.of_code_unit 12288) (String (JS.of_code_unit 8232) " "))
     "alice" (Some "sk-1") 5 Samples.provider_up Samples.indexed).1
  = Ok [].
Proof.
  apply (blank_query_resolves_empty
           (String (JS.of_code_unit 12288) (String (JS.of_code_unit 8232) " "))
           "alice" (Some "sk-1") 5 Samples.provider_up Samples.indexed).
  repeat constructor.
Defined.

(** ** Session store *)

Lemma getCurrentSession_spec u w st :
  getCurrentSession u w st =
    match current_ref u st with
    | Some ref => (Ok ref, st)
    | None => (Ok (uuid w), with_new_session u w st)
    end.
Proof.
  unfold getCurrentSession, current_ref. munfold.
  destruct (userCurrentSessions st !! u) as [sid|]; [|reflexivity].
  destruct (JS.truthy_str sid); [|reflexivity].
  destruct (conversationSessions st !! sid); reflexivity.
Qed.

Lemma session_mutations m w ref st :
  (messages_push m ref;; updateSessionActivity ref;; keep_recent ref) w st
  = (Ok tt, set_conversationSessions
              (alter (appended m (now w)) ref (conversationSessions st)) st).
Proof.
  unfold messages_push, updateSessionActivity, keep_recent, mutate_session. munfold.
  simpl. f_equal. destruct st as [vs i1 i2 pm cs us]. unfold set_conversationSessions.
  simpl. f_equal. rewrite !alter_alter_eq. apply alter_ext. intros s _. reflexivity.
Qed.

Lemma addChatMessage_spec m key w st :
  addChatMessage m key w st =
    if negb (JS.truthy key) then (Ok tt, session_updated m w st)
    else fire_and_forget (_addMessageToStore m key) w (session_updated m w st).
Proof.
  unfold addChatMessage. rewrite bind_run, getCurrentSession_spec. unfold session_updated.
  destruct (current_ref (userId m) st) as [ref|].
  - pose proof (session_mutations m w ref st) as H.
    unfold mbind in *. unfold M_bind in *.
    destruct (messages_push m ref w st) as [[[]|e] st1]; [|discriminate].
    destruct (updateSessionActivity ref w st1) as [[[]|e] st2]; [|discriminate].
    destruct (keep_recent ref w st2) as [[[]|e] st3]; [|discriminate].
    injection H as ->. destruct (negb (JS.truthy key)); reflexivity.
  - pose proof (session_mutations m w (uuid w) (with_new_session (userId m) w st)) as H.
    unfold mbind in *. unfold M_bind in *.
    destruct (messages_push m (uuid w) w _) as [[[]|e] st1]; [|discriminate].
    destruct (updateSessionActivity (uuid w) w st1) as [[[]|e] st2]; [|discriminate].
    destruct (keep_recent (uuid w) w st2) as [[[]|e] st3]; [|discriminate].
    injection H as ->. destruct (negb (JS.truthy key)); reflexivity.
Qed.

Lemma addChatMessageSync_spec m key w st :
  addChatMessageSync m key w st =
    if negb (JS.truthy key) then (Ok tt, session_updated m w st)
    else _addMessageToStore m key w (session_updated m w st).
Proof.
  unfold addChatMessageSync. rewrite bind_run, getCurrentSession_spec. unfold session_updated.
  destruct (current_ref (userId m) st) as [ref|].
  - pose proof (session_mutations m w ref st) as H.
    unfold mbind in *. unfold M_bind in *.
    destruct (messages_push m ref w st) as [[[]|e] st1]; [|discriminate].
    destruct (updateSessionActivity ref w st1) as [[[]|e] st2]; [|discriminate].
    destruct (keep_recent ref w st2) as [[[]|e] st3]; [|discriminate].
    injection H as ->. destruct (negb (JS.truthy key)); reflexivity.
  - pose proof (session_mutations m w (uuid w) (with_new_session (userId m) w st)) as H.
    unfold mbind in *. unfold M_bind in *.
    destruct (messages_push m (uuid w) w _) as [[[]|e] st1]; [|discriminate].
    destruct (updateSessionActivity (uuid w) w st1) as [[[]|e] st2]; [|discriminate].
    destruct (keep_recent (uuid w) w st2) as [[[]|e] st3]; [|discriminate].
    injection H as ->. destruct (negb (JS.truthy key)); reflexivity.
Qed.

Lemma appended_lastActivity m t s : lastActivity (appended m t s) = t.
Proof. unfold appended. simpl. destruct (_ <? _)%nat; reflexivity. Qed.

Lemma appended_length m t s :
  length (messages (appended m t s)) <= MAX_RECENT_MESSAGES.
Proof.
  unfold appended. simpl.
  destruct (MAX_RECENT_MESSAGES <? length (messages s ++ [m]))%nat eqn:E; simpl.
  - unfold MAX_RECENT_MESSAGES, JS.slice_last in *. rewrite length_drop. lia.
  - apply Nat.ltb_ge in E. exact E.
Qed.

Lemma appended_last m t s : last (messages (appended m t s)) = Some m.
Proof.
  unfold appended. simpl.
  destruct (MAX_RECENT_MESSAGES <? length (messages s ++ [m]))%nat eqn:E; simpl.
  - apply Nat.ltb_lt in E. unfold MAX_RECENT_MESSAGES, JS.slice_last in *.
    rewrite length_app in *. simpl in *.
    rewrite drop_app_le by lia. apply last_snoc.
  - apply last_snoc.
Qed.

(** After the session part of an append, the user's pointer designates a
    session that is the appended form of the session found or created. *)
Lemma session_updated_current m w st :
  exists ref s0,
    userCurrentSessions (session_updated m w st) !! userId m = Some ref
    /\ conversationSessions (session_updated m w st) !! ref = Some (appended m (now w) s0).
Proof.
  unfold session_updated.
  destruct (current_ref (userId m) st) as [ref|] eqn:Hc.
  - unfold current_ref in Hc.
    destruct (userCurrentSessions st !! userId m) as [sid|] eqn:Hp; [|discriminate].
    destruct (JS.truthy_str sid); [|discriminate].
    destruct (conversationSessions st !! sid) as [s0|] eqn:Hs; [|discriminate].
    injection Hc as <-. exists sid, s0. simpl. split; [exact Hp|].
    rewrite lookup_alter_eq, Hs. reflexivity.
  - exists (uuid w), (mkSession (uuid w) (userId m) [] (now w) (now w)). simpl.
    split; [apply lookup_insert_eq|].
    rewrite lookup_alter_eq, lookup_insert_eq. reflexivity.
Qed.

Lemma session_updated_frame m w st :
  pendingMessages (session_updated m w st) = pendingMessages st
  /\ vectorStore (session_updated m w st) = vectorStore st.
Proof. unfold session_updated. destruct (current_ref (userId m) st); simpl; auto. Qed.

(** C3, as stated, fails: two first calls of [addChatMessage] without a
    credential leave the pending queue empty, not of length 2. *)
Lemma no_credential_leaves_queue_empty :
  let st1 := (addChatMessage Samples.hello_alice None Samples.provider_up initial_state).2 in
  let st2 := (addChatMessage Samples.hello_bob None Samples.provider_up st1).2 in
  length (pendingMessages st2) = 0 /\ vectorStore st2 = None.
Proof.
  vm_compute. split; reflexivity.
Qed.

(** C3, amended.  A call of [addChatMessage] without a credential resolves
    after appending the message to the user's current session only: the
    pending queue and the (absent or present) index are left as they were;
    so two such calls on a fresh service leave the queue empty and no index
    built. *)
Theorem addChatMessage_without_credential m key w st :
  JS.truthy key = false ->
  let r := addChatMessage m key w st in
  r.1 = Ok tt
  /\ pendingMessages r.2 = pendingMessages st
  /\ vectorStore r.2 = vectorStore st
  /\ (exists ref s, userCurrentSessions r.2 !! userId m = Some ref
                    /\ conversationSessions r.2 !! ref = Some s
                    /\ last (messages s) = Some m)
  /\ (forall m' key' w', JS.truthy key' = false ->
        let r' := addChatMessage m' key' w' r.2 in
        pendingMessages r'.2 = pendingMessages st /\ vectorStore r'.2 = vectorStore st).
Proof.
  intros Hk. cbv zeta. rewrite addChatMessage_spec, Hk. simpl.
  pose proof (session_updated_frame m w st) as [Hp Hv].
  split; [reflexivity|]. split; [exact Hp|]. split; [exact Hv|]. split.
  - destruct (session_updated_current m w st) as (ref & s0 & H1 & H2).
    exists ref, (appended m (now w) s0). split; [exact H1|]. split; [exact H2|].
    apply appended_last.
  - intros m' key' w' Hk'. rewrite addChatMessage_spec, Hk'. simpl.
    pose proof (session_updated_frame m' w' (session_updated m w st)) as [Hp' Hv'].
    split; congruence.
Qed.

Lemma addChatMessage_without_credential_witness :
  (addChatMessage Samples.hello_alice None Samples.provider_up initial_state).1 = Ok tt
  /\ pendingMessages (addChatMessage Samples.hello_alice None Samples.provider_up
                        initial_state).2 = [].
Proof.
  pose proof (addChatMessage_without_credential Samples.hello_alice None
                Samples.provider_up initial_state eq_refl) as (H1 & H2 & _).
  split; [exact H1|exact H2].
Defined.

Lemma bounded_with_new_session u w st : bounded st -> bounded (with_new_session u w st).
Proof.
  unfold bounded, with_new_session. simpl. intros H.
  apply map_Forall_insert_2; [simpl; lia|exact H].
Qed.

Lemma bounded_alter_appended m t ref st :
  bounded st ->
  bounded (set_conversationSessions (alter (appended m t) ref (conversationSessions st)) st).
Proof.
  unfold bounded. simpl. intros H k s Hk.
  destruct (decide (ref = k)) as [->|Hne].
  - rewrite lookup_alter_eq in Hk. destruct (conversationSessions st !! k); [|discriminate].
    injection Hk as <-. apply appended_length.
  - rewrite lookup_alter_ne in Hk by exact Hne. eapply H, Hk.
Qed.

Lemma bounded_session_updated m w st : bounded st -> bounded (session_updated m w st).
Proof.
  intros H. unfold session_updated. destruct (current_ref (userId m) st).
  - apply bounded_alter_appended, H.
  - apply bounded_alter_appended, bounded_with_new_session, H.
Qed.

Lemma bounded_same_sessions st st' :
  conversationSessions st' = conversationSessions st -> bounded st -> bounded st'.
Proof. unfold bounded. intros ->. auto. Qed.

Lemma addChatMessage_sessions m key w st :
  conversationSessions (addChatMessage m key w st).2
  = conversationSessions (session_updated m w st)
  /\ userCurrentSessions (addChatMessage m key w st).2
     = userCurrentSessions (session_updated m w st).
Proof.
  rewrite addChatMessage_spec. destruct (negb (JS.truthy key)); [auto|].
  pose proof (addMessageToStore_sessions m key w (session_updated m w st)) as H.
  unfold fire_and_forget, try_catch.
  destruct (_addMessageToStore m key w (session_updated m w st)) as [[[]|e] st1]; exact H.
Qed.

Lemma addChatMessageSync_sessions m key w st :
  conversationSessions (addChatMessageSync m key w st).2
  = conversationSessions (session_updated m w st)
  /\ userCurrentSessions (addChatMessageSync m key w st).2
     = userCurrentSessions (session_updated m w st).
Proof.
  rewrite addChatMessageSync_spec. destruct (negb (JS.truthy key)); [auto|].
  apply addMessageToStore_sessions.
Qed.

Lemma bounded_getCurrentSession u w st : bounded st -> bounded (getCurrentSession u w st).2.
Proof.
  intros H. rewrite getCurrentSession_spec.
  destruct (current_ref u st); [exact H|]. apply bounded_with_new_session, H.
Qed.

Lemma getRecentMessages_state u limit w st :
  (getRecentMessages u limit w st).2 = (getCurrentSession u w st).2.
Proof.
  unfold getRecentMessages. rewrite bind_run.
  destruct (getCurrentSession u w st) as [[ref|e] st1]; reflexivity.
Qed.

Lemma startNewConversation_state u w st :
  (startNewConversation u w st).2
  = (getCurrentSession u w
       (set_userCurrentSessions (delete u (userCurrentSessions st)) st)).2.
Proof.
  unfold startNewConversation. rewrite bind_run. munfold.
  destruct (getCurrentSession u w _) as [[ref|e] st1]; reflexivity.
Qed.

Lemma bounded_cleanup_session st sid : bounded st -> bounded (cleanup_session st sid).
Proof.
  unfold bounded, cleanup_session. intros H.
  destruct (conversationSessions st !! sid) as [s|]; [|exact H]. simpl.
  destruct (bool_decide _); simpl; apply map_Forall_delete, H.
Qed.

Lemma bounded_cleanup l : forall st, bounded st -> bounded (foldl cleanup_session st l).
Proof.
  induction l as [|sid l IH]; intros st H; simpl; [exact H|].
  apply IH, bounded_cleanup_session, H.
Qed.

Lemma bounded_run_call st c : bounded st -> bounded (run_call st c).
Proof.
  intros H. destruct c as [m key w|m key w|u limit w|u w|w]; simpl.
  - eapply bounded_same_sessions; [apply addChatMessage_sessions|].
    apply bounded_session_updated, H.
  - eapply bounded_same_sessions; [apply addChatMessageSync_sessions|].
    apply bounded_session_updated, H.
  - rewrite getRecentMessages_state. apply bounded_getCurrentSession, H.
  - rewrite startNewConversation_state. apply bounded_getCurrentSession.
    unfold bounded in *. exact H.
  - unfold cleanupExpiredSessions. munfold. simpl. apply bounded_cleanup, H.
Qed.

Lemma bounded_run calls : forall st, bounded st -> bounded (run calls st).
Proof.
  unfold run. induction calls as [|c calls IH]; intros st H; simpl; [exact H|].
  apply IH, bounded_run_call, H.
Qed.

Lemma bounded_initial_state : bounded initial_state.
Proof. unfold bounded, initial_state. simpl. apply map_Forall_empty. Qed.

(** C4.  On a service started from scratch, after any sequence of
    [addChatMessage], [addChatMessageSync], [getRecentMessages],
    [startNewConversation] and sweep calls, every session holds at most
    [MAX_RECENT_MESSAGES] = 15 messages; and right after an append (of either
    kind) the user's current session ends with the appended message, holds at
    most 15 messages and has the time of the call as its [lastActivity]. *)
Theorem session_length_bounded (calls : list Call) :
  MAX_RECENT_MESSAGES = 15
  /\ bounded (run calls initial_state)
  /\ forall m key w (sync : bool),
       let st' := run (calls ++ [if sync then AddChatMessageSync m key w
                                 else AddChatMessage m key w]) initial_state in
       exists ref s,
         userCurrentSessions st' !! userId m = Some ref
         /\ conversationSessions st' !! ref = Some s
         /\ length (messages s) <= MAX_RECENT_MESSAGES
         /\ lastActivity s = now w
         /\ last (messages s) = Some m.
Proof.
  split; [reflexivity|]. split; [apply bounded_run, bounded_initial_state|].
  intros m key w sync. cbv zeta. unfold run. rewrite foldl_app. simpl.
  fold (run calls initial_state). set (st := run calls initial_state).
  destruct (session_updated_current m w st) as (ref & s0 & H1 & H2).
  exists ref, (appended m (now w) s0).
  assert (Hs : conversationSessions (run_call st (if sync then AddChatMessageSync m key w
                                                  else AddChatMessage m key w))
               = conversationSessions (session_updated m w st)
               /\ userCurrentSessions (run_call st (if sync then AddChatMessageSync m key w
                                                    else AddChatMessage m key w))
                  = userCurrentSessions (session_updated m w st)).
  { destruct sync; simpl;
      [apply addChatMessageSync_sessions|apply addChatMessage_sessions]. }
  destruct Hs as [-> ->].
  split; [exact H1|]. split; [exact H2|].
  split; [apply appended_length|]. split; [apply appended_lastActivity|apply appended_last].
Qed.

(** ** Starting a new conversation *)



(** ** The sweep *)

Lemma elem_of_expiredSessions nowms st sid :
  sid ∈ expiredSessions nowms st
  <-> exists s, conversationSessions st !! sid = Some s /\ expired nowms s = true.
Proof.
  unfold expiredSessions. rewrite list_elem_of_fmap. split.
  - intros [[k s] [-> H]]. apply list_elem_of_filter in H as [He H].
    apply elem_of_map_to_list in H. exists s. auto.
  - intros [s [Hs He]]. exists (sid, s). split; [reflexivity|].
    apply list_elem_of_filter. split; [exact He|]. apply elem_of_map_to_list, Hs.
Qed.

Lemma cleanup_session_sessions st x :
  conversationSessions (cleanup_session st x) = delete x (conversationSessions st).
Proof.
  unfold cleanup_session. destruct (conversationSessions st !! x) as [s|] eqn:E.
  - simpl. destruct (bool_decide _); reflexivity.
  - symmetry. apply delete_id, E.
Qed.

Lemma cleanup_sessions_lookup l : forall st k,
  conversationSessions (foldl cleanup_session st l) !! k
  = if decide (k ∈ l) then None else conversationSessions st !! k.
Proof.
  induction l as [|x l IH]; intros st k; simpl.
  - reflexivity.
  - rewrite IH, cleanup_session_sessions.
    destruct (decide (k ∈ l)) as [Hl|Hl].
    + rewrite decide_True; [reflexivity|by apply list_elem_of_further].
    + destruct (decide (k = x)) as [->|Hne].
      * rewrite lookup_delete_eq. rewrite decide_True; [reflexivity|apply list_elem_of_here].
      * rewrite lookup_delete_ne by congruence.
        rewrite decide_False; [reflexivity|]. rewrite elem_of_cons. tauto.
Qed.

Lemma cleanup_session_pointer_kept st x u sid :
  userCurrentSessions st !! u = Some sid -> sid <> x ->
  userCurrentSessions (cleanup_session st x) !! u = Some sid.
Proof.
  intros Hp Hne. unfold cleanup_session.
  destruct (conversationSessions st !! x) as [s|]; [|exact Hp]. simpl.
  destruct (bool_decide _) eqn:E; simpl; [|exact Hp].
  apply bool_decide_eq_true in E.
  destruct (decide (s_userId s = u)) as [<-|Hu]; [congruence|].
  rewrite lookup_delete_ne by exact Hu. exact Hp.
Qed.

Lemma cleanup_session_pointer_none st x u :
  userCurrentSessions st !! u = None ->
  userCurrentSessions (cleanup_session st x) !! u = None.
Proof.
  intros Hp. unfold cleanup_session.
  destruct (conversationSessions st !! x) as [s|]; [|exact Hp]. simpl.
  destruct (bool_decide _); simpl; [|exact Hp].
  apply lookup_delete_None. auto.
Qed.

Lemma cleanup_pointer_none l : forall st u,
  userCurrentSessions st !! u = None ->
  userCurrentSessions (foldl cleanup_session st l) !! u = None.
Proof.
  induction l as [|x l IH]; intros st u H; simpl; [exact H|].
  apply IH, cleanup_session_pointer_none, H.
Qed.

Lemma cleanup_pointer_kept l : forall st u sid,
  sid ∉ l -> userCurrentSessions st !! u = Some sid ->
  userCurrentSessions (foldl cleanup_session st l) !! u = Some sid.
Proof.
  induction l as [|x l IH]; intros st u sid Hl H; simpl; [exact H|].
  apply not_elem_of_cons in Hl as [Hx Hl].
  apply IH; [exact Hl|]. apply cleanup_session_pointer_kept; assumption.
Qed.

Lemma cleanup_pointer_cleared l : forall st sid s,
  sid ∈ l -> conversationSessions st !! sid = Some s ->
  userCurrentSessions st !! s_userId s = Some sid ->
  userCurrentSessions (foldl cleanup_session st l) !! s_userId s = None.
Proof.
  induction l as [|x l IH]; intros st sid s Hl Hs Hp; [by apply elem_of_nil in Hl|].
  simpl. destruct (decide (sid = x)) as [<-|Hne].
  - apply cleanup_pointer_none. unfold cleanup_session. rewrite Hs. simpl.
    rewrite bool_decide_eq_true_2 by exact Hp. simpl. apply lookup_delete_eq.
  - apply elem_of_cons in Hl as [Hl|Hl]; [congruence|].
    apply (IH _ sid s Hl).
    + rewrite cleanup_session_sessions, lookup_delete_ne by congruence. exact Hs.
    + apply cleanup_session_pointer_kept; assumption.
Qed.

(** C8.  A sweep at time [now] removes exactly the sessions idle for more
    than 48 hours: such a session is gone afterwards, and so is the pointer
    of its user if it designated that session; a session idle for at most 48
    hours is still there, unchanged, and so are the pointers to it. *)
Theorem sweep_removes_exactly_expired w st sid s :
  conversationSessions st !! sid = Some s ->
  let st' := (cleanupExpiredSessions w st).2 in
  MAX_SESSION_AGE_HOURS = 48%Z
  /\ ((48 * 3600000 < now w - lastActivity s)%Z ->
      conversationSessions st' !! sid = None
      /\ (userCurrentSessions st !! s_userId s = Some sid ->
          userCurrentSessions st' !! s_userId s = None))
  /\ ((now w - lastActivity s <= 48 * 3600000)%Z ->
      conversationSessions st' !! sid = Some s
      /\ (forall u, userCurrentSessions st !! u = Some sid ->
                    userCurrentSessions st' !! u = Some sid)).
Proof.
  intros Hs. cbv zeta. unfold cleanupExpiredSessions. munfold. simpl.
  split; [reflexivity|]. split.
  - intros Hold.
    assert (Hin : sid ∈ expiredSessions (now w) st).
    { apply elem_of_expiredSessions. exists s. split; [exact Hs|].
      unfold expired, MAX_SESSION_AGE_HOURS. apply Z.ltb_lt. lia. }
    split.
    + rewrite cleanup_sessions_lookup, decide_True by exact Hin. reflexivity.
    + intros Hp. eapply cleanup_pointer_cleared; eassumption.
  - intros Hyoung.
    assert (Hin : sid ∉ expiredSessions (now w) st).
    { rewrite elem_of_expiredSessions. intros (s' & Hs' & He).
      rewrite Hs in Hs'. injection Hs' as <-.
      unfold expired, MAX_SESSION_AGE_HOURS in He. apply Z.ltb_lt in He. lia. }
    split.
    + rewrite cleanup_sessions_lookup, decide_False by exact Hin. exact Hs.
    + intros u Hp. apply cleanup_pointer_kept; assumption.
Qed.

Lemma sweep_removes_exactly_expired_witness :
  let st' := (cleanupExpiredSessions (Samples.at_time (49 * Samples.hour) "s-3")
                two_sessions).2 in
  (conversationSessions st' !! "s-alice" = None /\ userCurrentSessions st' !! "alice" = None)
  /\ (conversationSessions st' !! "s-bob"
      = Some (mkSession "s-bob" "bob" [Samples.hello_bob] (2 * Samples.hour) (2 * Samples.hour))
      /\ userCurrentSessions st' !! "bob" = Some "s-bob").
Proof.
  cbv zeta. split.
  - destruct (sweep_removes_exactly_expired (Samples.at_time (49 * Samples.hour) "s-3")
                two_sessions "s-alice"
                (mkSession "s-alice" "alice" [Samples.hello_alice] 0 0))
      as (_ & Hold & _); [vm_compute; reflexivity|].
    destruct Hold as [H1 H2]; [vm_compute; reflexivity|].
    split; [exact H1|]. apply H2. vm_compute. reflexivity.
  - destruct (sweep_removes_exactly_expired (Samples.at_time (49 * Samples.hour) "s-3")
                two_sessions "s-bob"
                (mkSession "s-bob" "bob" [Samples.hello_bob] (2 * Samples.hour)
                           (2 * Samples.hour)))
      as (_ & _ & Hyoung); [vm_compute; reflexivity|].
    destruct Hyoung as [H1 H2]; [vm_compute; discriminate|].
    split; [exact H1|]. apply H2. vm_compute. reflexivity.
Defined.

(** ** Draining the pending queue *)

(** The drain on its own, started on a queue that holds messages (a state
    that no operation of the service produces, see [evolves_after]: the
    queue of a running service is always empty).  When the provider rejects
    the queued messages, the initialisation rejects, the queue is empty all
    the same and the messages are in neither the queue nor the index. *)
Lemma failed_drain_loses_queue :
  pendingMessages Samples.queued = [Samples.hello_alice; Samples.hello_bob]
  /\ _initializeVectorStoreWithKey "sk-1" Samples.provider_flaky Samples.queued
     = (Err "EmbeddingProviderError",
        set_vectorStore (Some [sentinel]) initial_state)
  /\ pendingMessages
       (_initializeVectorStoreWithKey "sk-1" Samples.provider_flaky Samples.queued).2 = [].
Proof. vm_compute. repeat split; reflexivity. Qed.

(** The drain for an arbitrary queue: once the seed item is embedded, the
    queue is emptied before its messages are embedded, so afterwards the
    queue is empty and the index holds the seed item and the messages the
    provider accepted, and the call resolves exactly when all of them were
    accepted.  When the seed item cannot be embedded, nothing changes.  Once
    an index exists, adding a message with a credential leaves the queue as
    it is. *)
Lemma drain_empties_queue key w st :
  JS.truthy_str key = true ->
  let r := _initializeVectorStoreWithKey key w st in
  (fromTexts_ok w = true ->
     pendingMessages r.2 = []
     /\ vectorStore r.2 = Some (sentinel :: embedded w (pendingMessages st))
     /\ (r.1 = Ok tt <-> all_embedded w (pendingMessages st) = true))
  /\ (fromTexts_ok w = false -> r = (Err "EmbeddingProviderError", st))
  /\ (forall m w' st0, vectorStore st0 <> None ->
        pendingMessages (_addMessageToStore m (Some key) w' st0).2 = pendingMessages st0).
Proof.
  intros Hk. cbv zeta. rewrite initializeVectorStoreWithKey_spec, Hk.
  split; [|split].
  - intros ->. simpl. split; [reflexivity|]. split; [reflexivity|].
    destruct (all_embedded w (pendingMessages st)); split; congruence.
  - intros ->. reflexivity.
  - intros m w' st0 Hs. rewrite addMessageToStore_with_store by exact Hs.
    destruct (vectorStore st0) as [index|] eqn:E; [|congruence].
    rewrite (addMessageToStore_ready_spec m key w' st0 index Hk E).
    destruct (addDocuments_ok w' _); reflexivity.
Qed.

(** Through the session operations the pending queue of a fresh service
    stays empty: nothing reaches the queueing branch of [_addMessageToStore]. *)
Lemma pending_queue_stays_empty calls :
  pendingMessages (run calls initial_state) = [].
Proof.
  assert (H : forall st, pendingMessages st = [] -> pendingMessages (run calls st) = []);
    [|apply H; reflexivity].
  unfold run. induction calls as [|c calls IH]; intros st Hst; simpl; [exact Hst|].
  apply IH. destruct c as [m key w|m key w|u limit w|u w|w]; simpl.
  - rewrite addChatMessage_spec.
    pose proof (session_updated_frame m w st) as [Hp _].
    destruct (JS.truthy key) eqn:Hk; simpl; [|congruence].
    pose proof (addMessageToStore_pending m key w (session_updated m w st) Hk) as H.
    unfold fire_and_forget, try_catch.
    destruct (_addMessageToStore m key w (session_updated m w st)) as [[[]|e] st1];
      simpl in *; destruct H; congruence.
  - rewrite addChatMessageSync_spec.
    pose proof (session_updated_frame m w st) as [Hp _].
    destruct (JS.truthy key) eqn:Hk; simpl; [|congruence].
    destruct (addMessageToStore_pending m key w (session_updated m w st) Hk); congruence.
  - rewrite getRecentMessages_state, getCurrentSession_spec.
    destruct (current_ref u st); simpl; exact Hst.
  - rewrite startNewConversation_state, getCurrentSession_spec.
    destruct (current_ref u _); simpl; exact Hst.
  - unfold cleanupExpiredSessions. munfold. simpl.
    generalize (expiredSessions (now w) st). intros l. revert st Hst.
    induction l as [|x l IHl]; intros st Hst; simpl; [exact Hst|].
    apply IHl. unfold cleanup_session.
    destruct (conversationSessions st !! x); [|exact Hst]. simpl.
    destruct (bool_decide _); simpl; exact Hst.
Qed.

(** ** The context flag of a chat reply *)

Lemma slice_last_nil_iff {A : Type} (n : nat) (l : list A) :
  JS.slice_last (S n) l = [] <-> l = [].
Proof.
  unfold JS.slice_last. split; [|intros ->; reflexivity].
  intros H. apply (f_equal length) in H. rewrite length_drop in H. simpl in H.
  destruct l; [reflexivity|simpl in H; lia].
Qed.

Lemma recentContext_nil_iff cc : recentContext cc = [] <-> recentMessages cc = [].
Proof.
  unfold recentContext. rewrite <- (slice_last_nil_iff 7 (recentMessages cc)).
  destruct (JS.slice_last 8 (recentMessages cc)); simpl; split; congruence.
Qed.

Lemma documentContext_nil_iff docs : documentContext docs = [] <-> docs = [].
Proof.
  destruct docs as [|d docs]; [split; reflexivity|].
  split; [|discriminate]. unfold documentContext, JS.slice_first.
  rewrite fmap_cons. cbn [take]. discriminate.
Qed.

Lemma length_pos_iff {A : Type} (l : list A) : (0 <? length l)%nat = true <-> l <> [].
Proof.
  destruct l; simpl; split; intros H; try congruence; try reflexivity.
  discriminate.
Qed.

Lemma contextSections_nonempty cc docs :
  (0 <? length (contextSections cc docs))%nat = true
  <-> recentMessages cc <> [] \/ semanticContext cc <> [] \/ docs <> [].
Proof.
  rewrite <- recentContext_nil_iff, <- documentContext_nil_iff, <- !length_pos_iff.
  unfold contextSections.
  destruct (0 <? length (recentContext cc))%nat,
           (0 <? length (semanticContext cc))%nat,
           (0 <? length (documentContext docs))%nat; simpl; intuition congruence.
Qed.

(** C2, as stated, fails: with one recent message in the session and no hit
    from either search, the reply reports [contextUsed = true]. *)
Lemma recent_messages_alone_set_contextUsed :
  match with_uuid (more_uuids Samples.provider_up 0)
          (getChatContext "hi" "alice" (Some "sk-1"))
          Samples.provider_up one_recent_message with
  | (Ok cc, st1) =>
      relevantHistory cc = [] /\ semanticContext cc = []
      /\ recentMessages cc = [Samples.hello_alice]
      /\ searchDocuments "hi" "alice" (Some "sk-1") 3 Samples.provider_up st1 = (Ok [], st1)
  | (Err _, _) => False
  end
  /\ match post_chat "alice" "hi" (Some "sk-1") Samples.provider_up one_recent_message with
     | (Ok reply, _) => contextUsed reply = true
     | (Err _, _) => False
     end.
Proof. vm_compute. repeat split; reflexivity. Qed.

(** C2, amended.  For every chat request that is processed, [contextUsed]
    is true exactly when at least one of the three context sections is
    non-empty: the recent messages of the session, the semantic hits that
    are not already among the recent messages, or the document hits. *)
Theorem contextUsed_iff_some_section u message key w st reply st' :
  post_chat u message key w st = (Ok reply, st') ->
  exists cc st1 docs st2,
    with_uuid (more_uuids w 0) (getChatContext message u key) w st = (Ok cc, st1)
    /\ searchDocuments message u key 3 w st1 = (Ok docs, st2)
    /\ (contextUsed reply = true
        <-> recentMessages cc <> [] \/ semanticContext cc <> [] \/ docs <> []).
Proof.
  unfold post_chat. intros H.
  apply bind_Ok in H as (resp & st0 & H & Hreply).
  cbn [mret M_ret] in Hreply. injection Hreply as <- <-.
  unfold processChat in H. apply try_catch_throw_Ok in H.
  cbn [req_userApiKey req_message req_userId] in H.
  destruct (negb (JS.truthy key)); [discriminate H|].
  apply bind_Ok in H as (w0 & sta & Hw & H). injection Hw as <- <-.
  apply bind_Ok in H as (userMessage & stb & Hm & H).
  unfold createChatMessage in Hm. apply bind_Ok in Hm as (w1 & stc & Hw & Hm).
  injection Hw as <- <-. injection Hm as <- <-.
  apply bind_Ok in H as (stf & std & Hst & H). injection Hst as <- <-.
  apply bind_Ok in H as (cc & st1 & Hcc & H).
  apply bind_Ok in H as (docs & st2 & Hdocs & H).
  apply bind_Ok in H as (text & st3 & _ & H).
  unfold with_now in H.
  apply bind_Ok in H as (assistantMessage & st4 & _ & H).
  apply bind_Ok in H as (st5 & ste & _ & H).
  apply bind_Ok in H as ([] & st6 & _ & H).
  apply bind_Ok in H as ([] & st7 & _ & H).
  cbn [mret M_ret] in H. injection H as <- _.
  exists cc, st1, docs, st2. split; [exact Hcc|]. split; [exact Hdocs|].
  unfold chat_reply. simpl. apply contextSections_nonempty.
Qed.

Lemma contextUsed_iff_some_section_witness :
  exists cc st1 docs st2,
    with_uuid (more_uuids Samples.provider_up 0) (getChatContext "hi" "alice" (Some "sk-1"))
              Samples.provider_up one_recent_message = (Ok cc, st1)
    /\ searchDocuments "hi" "alice" (Some "sk-1") 3 Samples.provider_up st1 = (Ok docs, st2)
    /\ (true = true <-> recentMessages cc <> [] \/ semanticContext cc <> [] \/ docs <> []).
Proof.
  apply (contextUsed_iff_some_section "alice" "hi" (Some "sk-1") Samples.provider_up
           one_recent_message
           (mkChatReply "a-id" "Certainly." 1500 true)
           (post_chat "alice" "hi" (Some "sk-1") Samples.provider_up one_recent_message).2).
  vm_compute. reflexivity.
Defined.

Example split_2500 :
  length (textSplitter_splitText (repeat_string 2500 "a")) = 3.
Proof. vm_compute. reflexivity. Qed.

Example split_paragraphs :
  textSplitter_splitText ("ab" +:+ newline +:+ newline +:+ "cd") = ["ab" +:+ newline +:+ newline +:+ "cd"].
Proof. vm_compute. reflexivity. Qed.

(** ** Chunking *)

Ltac div_lia :=
  unfold window_count, ceil_div in *; zify; Z.to_euclidean_division_equations; lia.

Lemma window_count_small L : L <= 1000 -> window_count L = 1.
Proof. intros. div_lia. Qed.

Lemma window_count_large L : 1000 < L -> window_count L = S (window_count (L - 800)).
Proof. intros. div_lia. Qed.

Lemma window_count_ceil L :
  200 < L -> Z.of_nat (window_count L) = ceil_div (Z.of_nat L - 200) 800.
Proof. intros. div_lia. Qed.

Lemma windows_small cs : length cs <= 1000 -> windows cs = [cs].
Proof.
  intros H. unfold windows. rewrite window_count_small by exact H.
  cbn [seq fmap list_fmap]. unfold window. rewrite Nat.mul_0_r, drop_0.
  rewrite take_ge by exact H. reflexivity.
Qed.

Lemma windows_large cs :
  1000 < length cs -> windows cs = take 1000 cs :: windows (drop 800 cs).
Proof.
  intros H. unfold windows. rewrite window_count_large by exact H.
  rewrite length_drop. cbn [seq fmap list_fmap]. f_equal.
  rewrite <- fmap_S_seq, <- list_fmap_compose. apply list_fmap_ext.
  intros i j _. unfold window. simpl. rewrite drop_drop. do 2 f_equal. lia.
Qed.

Section SplitterFacts.

Import RecursiveCharacterTextSplitter.

Lemma chars_single text : chars text = single <$> list_ascii_of_string text.
Proof. induction text as [|c r IH]; simpl; [reflexivity|]. rewrite IH. reflexivity. Qed.

Lemma join_single cs : JS.join "" (single <$> cs) = string_of_list_ascii cs.
Proof.
  induction cs as [|c cs IH]; [reflexivity|].
  destruct cs as [|c' cs]; [reflexivity|].
  change (JS.join "" (single <$> c :: c' :: cs))
    with (single c +:+ "" +:+ JS.join "" (single <$> c' :: cs)).
  rewrite IH. reflexivity.
Qed.

Lemma trim_start_no_white cs :
  no_white_space cs -> JS.trim_start (string_of_list_ascii cs) = string_of_list_ascii cs.
Proof. intros H. destruct H as [|c cs Hc _]; simpl; [reflexivity|]. rewrite Hc. reflexivity. Qed.

Lemma trim_end_no_white cs :
  no_white_space cs -> JS.trim_end (string_of_list_ascii cs) = string_of_list_ascii cs.
Proof.
  intros H. induction H as [|c cs Hc _ IH]; simpl; [reflexivity|].
  rewrite IH, Hc. destruct (string_of_list_ascii cs); reflexivity.
Qed.

Lemma joinDocs_single cs :
  cs <> [] -> no_white_space cs ->
  joinDocs (single <$> cs) "" = Some (string_of_list_ascii cs).
Proof.
  intros Hne Hw. unfold joinDocs, JS.trim.
  rewrite join_single, trim_start_no_white, trim_end_no_white by exact Hw.
  destruct cs; [congruence|reflexivity].
Qed.

Lemma pop_front_single cur :
  200 <= length cur ->
  pop_front 1000 200 1 0 (single <$> cur) (length cur)
  = (single <$> drop (length cur - 200) cur, 200).
Proof.
  induction cur as [|c cur IH]; intros H; [simpl in H; lia|].
  cbn [fmap list_fmap pop_front]. rewrite Nat.mul_0_r.
  destruct (decide (length (c :: cur) = 200)) as [E|E].
  - rewrite E. simpl. reflexivity.
  - simpl in H, E.
    assert (Hlt : (200 <? length (c :: cur))%nat = true) by (apply Nat.ltb_lt; simpl; lia).
    rewrite Hlt. cbn [orb]. change (String.length (single c)) with 1.
    replace (length (c :: cur) - 1) with (length cur) by (simpl; lia).
    rewrite IH by lia. replace (length (c :: cur) - 200) with (S (length cur - 200))
      by (simpl; lia). reflexivity.
Qed.

(** Merging single characters: from a state that holds the characters
    [cur], the remaining characters [rest] complete the windows of
    [cur ++ rest]. *)
Lemma merge_single rest : forall docs cur,
  length cur <= 1000 ->
  cur ++ rest <> [] ->
  no_white_space (cur ++ rest) ->
  finish (foldl (merge_step 1000 200 "") (docs, single <$> cur, length cur) (single <$> rest))
  = docs ++ (string_of_list_ascii <$> windows (cur ++ rest)).
Proof.
  induction rest as [|d rest IH]; intros docs cur Hlen Hne Hw.
  - rewrite app_nil_r in *. simpl. rewrite joinDocs_single by assumption.
    rewrite windows_small by exact Hlen. reflexivity.
  - cbn [fmap list_fmap foldl]. unfold merge_step at 2.
    change (String.length (single d)) with 1. change (String.length "") with 0.
    rewrite Nat.mul_0_r, length_fmap.
    destruct (decide (length cur = 1000)) as [E|E].
    + assert (Hc : ((1000 <? length cur + 1 + 0)%nat && (0 <? length cur)%nat) = true).
      { rewrite E. reflexivity. }
      rewrite Hc.
      assert (Hcur : cur <> []) by (intros ->; simpl in E; lia).
      apply Forall_app in Hw as Hw'. destruct Hw' as [Hwc Hwr].
      rewrite joinDocs_single by assumption.
      rewrite pop_front_single by lia. rewrite E.
      change (1000 - 200) with 800.
      replace (200 + 1) with (length (drop 800 cur ++ [d]))
        by (rewrite length_app, length_drop, E; reflexivity).
      replace ((single <$> drop 800 cur) ++ [single d]) with (single <$> (drop 800 cur ++ [d]))
        by (rewrite fmap_app; reflexivity).
      rewrite IH.
      * rewrite <- app_assoc. f_equal.
        rewrite (windows_large (cur ++ d :: rest)) by (rewrite length_app; simpl; lia).
        rewrite take_app_le, take_ge by lia.
        rewrite drop_app_le by lia. rewrite <- app_assoc. reflexivity.
      * rewrite length_app, length_drop, E. simpl. lia.
      * intros H. apply app_eq_nil in H as [H _]. apply app_eq_nil in H as [_ H].
        discriminate.
      * rewrite <- app_assoc. apply Forall_app. split; [|exact Hwr].
        apply Forall_drop, Hwc.
    + assert (Hc : ((1000 <? length cur + 1 + 0)%nat && (0 <? length cur)%nat) = false).
      { apply andb_false_iff. left. apply Nat.ltb_ge. lia. }
      rewrite Hc.
      replace (length cur + 1) with (length (cur ++ [d]))
        by (rewrite length_app; reflexivity).
      replace ((single <$> cur) ++ [single d]) with (single <$> (cur ++ [d]))
        by (rewrite fmap_app; reflexivity).
      rewrite IH.
      * rewrite <- app_assoc. reflexivity.
      * rewrite length_app. simpl. lia.
      * intros H. apply app_eq_nil in H as [H _]. apply app_eq_nil in H as [_ H].
        discriminate.
      * rewrite <- app_assoc. exact Hw.
Qed.

End SplitterFacts.

Section SplitTextFacts.

Import RecursiveCharacterTextSplitter.

Lemma includes_first c s text :
  includes (String c s) text = true -> c ∈ list_ascii_of_string text.
Proof.
  induction text as [|a r IH]; simpl; [discriminate|].
  intros H. apply orb_prop in H as [H|H].
  - destruct (ascii_dec c a) as [->|]; [apply list_elem_of_here|discriminate].
  - apply list_elem_of_further, IH, H.
Qed.

Lemma includes_white c s text :
  JS.is_white_space c = true ->
  no_white_space (list_ascii_of_string text) ->
  includes (String c s) text = false.
Proof.
  intros Hc Hw. destruct (includes (String c s) text) eqn:E; [|reflexivity].
  apply includes_first in E. unfold no_white_space in Hw.
  rewrite Forall_forall in Hw. apply Hw in E. congruence.
Qed.

Lemma filter_single (cs : list ascii) :
  filter (fun s => s <> EmptyString) (single <$> cs) = single <$> cs.
Proof.
  induction cs as [|c cs IH]; [reflexivity|].
  rewrite fmap_cons, filter_cons_True by discriminate. rewrite IH. reflexivity.
Qed.

Lemma split_pieces_single (rest : list ascii) : forall good,
  split_pieces 1000 200 None (single <$> rest) good []
  = if (0 <? length (good ++ (single <$> rest)))%nat
    then mergeSplits 1000 200 (good ++ (single <$> rest)) ""
    else [].
Proof.
  induction rest as [|c rest IH]; intros good.
  - simpl. rewrite app_nil_r. reflexivity.
  - cbn [fmap list_fmap split_pieces].
    change (String.length (single c) <? 1000)%nat with true. cbv iota.
    rewrite IH, <- app_assoc. reflexivity.
Qed.

Lemma _splitText_skip c s s' rest text :
  includes (String c s) text = false ->
  _splitText 1000 200 (String c s :: s' :: rest) text = _splitText 1000 200 (s' :: rest) text.
Proof. intros H. cbn [_splitText JS.truthy_str negb]. rewrite H. reflexivity. Qed.

Lemma _splitText_characters rest text :
  _splitText 1000 200 (EmptyString :: rest) text
  = split_pieces 1000 200 None (splitOnSeparator text EmptyString) [] [].
Proof. reflexivity. Qed.

(** On a text without white space only the character-level separator
    applies, and the chunks are the windows of the text. *)
Lemma splitText_no_white_space text :
  no_white_space (list_ascii_of_string text) ->
  text <> EmptyString ->
  textSplitter_splitText text
  = string_of_list_ascii <$> windows (list_ascii_of_string text).
Proof.
  intros Hw Hne. unfold textSplitter_splitText.
  change (newline +:+ newline)
    with (String (ascii_of_nat 10) (String (ascii_of_nat 10) EmptyString)).
  change newline with (String (ascii_of_nat 10) EmptyString).
  change " " with (String (ascii_of_nat 32) EmptyString).
  rewrite !_splitText_skip by (apply includes_white; [reflexivity|exact Hw]).
  rewrite _splitText_characters.
  unfold splitOnSeparator. cbn [JS.truthy_str].
  rewrite chars_single, filter_single, split_pieces_single. cbn [app].
  rewrite length_fmap.
  assert (Hcs : list_ascii_of_string text <> []).
  { destruct text; [congruence|discriminate]. }
  destruct (list_ascii_of_string text) as [|c cs]; [congruence|].
  change (0 <? length (c :: cs))%nat with true. cbv iota.
  exact (merge_single (c :: cs) [] [] ltac:(simpl; lia) Hcs Hw).
Qed.

Lemma window_overlap cs i :
  S i < window_count (length cs) ->
  drop 800 (window cs i) = take 200 (window cs (S i))
  /\ length (drop 800 (window cs i)) = 200.
Proof.
  intros Hi. unfold window.
  assert (E : drop 800 (take 1000 (drop (800 * i) cs))
              = take 200 (take 1000 (drop (800 * S i) cs))).
  { rewrite take_take. change (200 `min` 1000) with 200.
    replace (800 * S i) with (800 * i + 800) by lia.
    rewrite <- drop_drop. rewrite (take_drop_commute _ 200 800). reflexivity. }
  split; [exact E|]. rewrite E, take_take, length_take, length_drop.
  change (200 `min` 1000) with 200. div_lia.
Qed.

End SplitTextFacts.

(** ** [processDocument] *)

Lemma try_catch_Ok_inv {A : Type} (c : M A) (h : string -> M A) w st a st' :
  try_catch c h w st = (Ok a, st') ->
  c w st = (Ok a, st')
  \/ exists e st1, c w st = (Err e, st1) /\ h e w st1 = (Ok a, st').
Proof.
  unfold try_catch. destruct (c w st) as [[a0|e] st1]; [auto|].
  intros H. right. exists e, st1. auto.
Qed.

(** Whatever the splitter, the chunks of a processed document are the
    pieces returned by the splitter, numbered from 0 in order, each with the
    number of pieces as [totalChunks]. *)
Lemma processDocument_indices splitText file u key w st pd st' :
  processDocument splitText file u key w st = (Ok pd, st') ->
  exists text,
    length (chunks pd) = length (splitText text)
    /\ pd_totalChunks pd = length (chunks pd)
    /\ (forall i c, chunks pd !! i = Some c ->
          chunkIndex c = i /\ totalChunks c = length (chunks pd)
          /\ splitText text !! i = Some (chunk_content c))
    /\ (mimetype file = "text/plain" -> text = buffer file).
Proof.
  unfold processDocument. intros H.
  apply try_catch_Ok_inv in H as [H|(e & st1 & _ & H)]; [|discriminate H].
  destruct (negb (JS.truthy_str key)); [discriminate H|].
  apply bind_Ok in H as (text & st1 & Htext & H).
  apply bind_Ok in H as (w0 & st2 & Hw & H). injection Hw as <- <-.
  apply bind_Ok in H as ([] & st3 & _ & H).
  cbn [mret M_ret] in H. injection H as <- <-. cbn [chunks pd_totalChunks].
  exists text. rewrite length_imap. split; [reflexivity|]. split; [reflexivity|]. split.
  - intros i c Hc. rewrite list_lookup_imap in Hc.
    destruct (splitText text !! i) as [piece|]; [|discriminate].
    injection Hc as <-. simpl. auto.
  - intros Hm. rewrite bool_decide_eq_true_2 in Htext by exact Hm.
    cbn [mret M_ret] in Htext. injection Htext as <- _. reflexivity.
Qed.

(** With a provider that accepts every request, processing a plain text
    file succeeds. *)
Lemma processDocument_succeeds splitText file u key w st :
  mimetype file = "text/plain" ->
  JS.truthy_str key = true ->
  fromTexts_ok w = true ->
  (forall docs, addDocuments_ok w docs = true) ->
  exists pd st', processDocument splitText file u key w st = (Ok pd, st').
Proof.
  intros Hm Hk Hf Ha. unfold processDocument, try_catch.
  rewrite Hk. cbn [negb]. rewrite bind_run, bool_decide_eq_true_2 by exact Hm.
  cbn [mret M_ret]. rewrite bind_run. unfold ask at 1. rewrite bind_run.
  set (docs := chunk_document _ <$> _).
  assert (Hadd : exists st1, addDocuments docs key w st = (Ok tt, st1)).
  { unfold addDocuments. rewrite Hk. cbn [negb]. rewrite bind_run. unfold get_state at 1.
    cbv iota beta. rewrite bind_run.
    assert (Hstore : forall st0 index, vectorStore st0 = Some index ->
              exists st1, store_addDocuments docs w st0 = (Ok tt, st1)).
    { intros st0 index Hs. unfold store_addDocuments. munfold. rewrite Hs, Ha.
      eexists. reflexivity. }
    destruct (vectorStore st) as [index|] eqn:Hs.
    - cbn [mret M_ret]. rewrite try_catch_rethrow. apply (Hstore st index Hs).
    - rewrite initializeVectorStoreWithKey_spec, Hk, Hf.
      assert (Hall : all_embedded w (pendingMessages st) = true).
      { unfold all_embedded. apply forallb_forall. intros m _. apply Ha. }
      rewrite Hall, try_catch_rethrow. eapply Hstore. reflexivity. }
  destruct Hadd as [st1 ->]. cbn [mret M_ret]. eexists _, _. reflexivity.
Qed.

Lemma length_list_ascii_of_string text :
  length (list_ascii_of_string text) = String.length text.
Proof. induction text as [|c r IH]; simpl; [reflexivity|]. rewrite IH. reflexivity. Qed.

(** C5, as stated, fails.  A text of length 1 gives one chunk, where the
    formula gives 0; a text of length 1802 made of two paragraphs gives two
    chunks (one per paragraph, nothing shared), where the formula gives 3. *)
Lemma chunk_count_formula_fails :
  (String.length (buffer note) = 1
   /\ ceil_div (1 - 200) 800 = 0%Z
   /\ match documentService_processDocument note "alice" "sk-1"
              Samples.provider_up initial_state with
      | (Ok pd, _) => length (chunks pd) = 1 /\ pd_totalChunks pd = 1
      | (Err _, _) => False
      end)
  /\ (String.length (buffer two_paragraphs) = 1802
      /\ ceil_div (1802 - 200) 800 = 3%Z
      /\ match documentService_processDocument two_paragraphs "alice" "sk-1"
                 Samples.provider_up initial_state with
         | (Ok pd, _) =>
             chunk_content <$> chunks pd = [repeat_string 900 "a"; repeat_string 900 "b"]
         | (Err _, _) => False
         end).
Proof. vm_compute. repeat split; reflexivity. Qed.

(** C5, amended.  For every text, the chunks of a processed document are
    numbered 0, 1, ... in order and each carries the number of chunks as
    [totalChunks].  For a plain text of length L > 200 without white space
    (so that only the character-level separator applies), processed with a
    provider that accepts the requests, [processDocument] produces
    ceil((L - 200) / 800) chunks, chunk [i] being the window of the text
    from [800 * i] up to [800 * i + 1000]; hence the last 200 units of a
    chunk are the first 200 units of the next one. *)
Theorem processDocument_chunking :
  (forall file u key w st pd st',
     documentService_processDocument file u key w st = (Ok pd, st') ->
     pd_totalChunks pd = length (chunks pd)
     /\ forall i c, chunks pd !! i = Some c ->
                    chunkIndex c = i /\ totalChunks c = length (chunks pd))
  /\ (forall file u key w st,
        mimetype file = "text/plain" ->
        JS.truthy_str key = true ->
        fromTexts_ok w = true ->
        (forall docs, addDocuments_ok w docs = true) ->
        no_white_space (list_ascii_of_string (buffer file)) ->
        200 < String.length (buffer file) ->
        exists pd st',
          documentService_processDocument file u key w st = (Ok pd, st')
          /\ Z.of_nat (length (chunks pd))
             = ceil_div (Z.of_nat (String.length (buffer file)) - 200) 800
          /\ (forall i c, chunks pd !! i = Some c ->
                chunk_content c
                = string_of_list_ascii (window (list_ascii_of_string (buffer file)) i))
          /\ (forall i c c', chunks pd !! i = Some c -> chunks pd !! S i = Some c' ->
                drop 800 (list_ascii_of_string (chunk_content c))
                = take 200 (list_ascii_of_string (chunk_content c'))
                /\ length (drop 800 (list_ascii_of_string (chunk_content c))) = 200)).
Proof.
  split.
  - intros file u key w st pd st' H.
    apply processDocument_indices in H as (text & _ & Ht & Hi & _).
    split; [exact Ht|]. intros i c Hc. apply Hi in Hc as (H1 & H2 & _). auto.
  - intros file u key w st Hm Hk Hf Ha Hw HL.
    destruct (processDocument_succeeds textSplitter_splitText file u key w st Hm Hk Hf Ha)
      as (pd & st' & Hpd).
    exists pd, st'. split; [exact Hpd|].
    apply processDocument_indices in Hpd as (text & Hlen & _ & Hi & Htext).
    rewrite (Htext Hm) in *. clear Htext text.
    assert (Hne : buffer file <> EmptyString).
    { intros E. rewrite E in HL. simpl in HL. lia. }
    rewrite (splitText_no_white_space _ Hw Hne) in *.
    set (cs := list_ascii_of_string (buffer file)) in *.
    assert (Hcs : length cs = String.length (buffer file))
      by apply length_list_ascii_of_string.
    unfold windows in Hlen. rewrite !length_fmap, length_seq in Hlen.
    assert (Hcontent : forall i c, chunks pd !! i = Some c ->
              chunk_content c = string_of_list_ascii (window cs i)
              /\ i < window_count (length cs)).
    { intros i c Hc. apply Hi in Hc as (_ & _ & Hc).
      unfold windows in Hc. rewrite list_lookup_fmap in Hc.
      destruct ((window cs <$> seq 0 (window_count (length cs))) !! i) as [x|] eqn:E;
        [|discriminate].
      injection Hc as <-. rewrite list_lookup_fmap in E.
      destruct (seq 0 (window_count (length cs)) !! i) as [j|] eqn:Ej; [|discriminate].
      apply lookup_seq in Ej as [-> Hlt]. injection E as <-. split; [reflexivity|exact Hlt]. }
    split; [|split].
    + rewrite Hlen, <- Hcs. apply window_count_ceil. lia.
    + intros i c Hc. apply Hcontent in Hc as [Hc _]. exact Hc.
    + intros i c c' Hc Hc'.
      apply Hcontent in Hc as [-> _]. apply Hcontent in Hc' as [-> Hlt].
      rewrite !list_ascii_of_string_of_list_ascii. apply window_overlap, Hlt.
Qed.

Lemma processDocument_chunking_witness :
  exists pd st',
    documentService_processDocument letters_2500 "alice" "sk-1" Samples.provider_up
      initial_state = (Ok pd, st')
    /\ Z.of_nat (length (chunks pd)) = 3%Z.
Proof.
  destruct (proj2 processDocument_chunking letters_2500 "alice" "sk-1" Samples.provider_up
              initial_state)
    as (pd & st' & H1 & H2 & _).
  - reflexivity.
  - reflexivity.
  - reflexivity.
  - intros docs. reflexivity.
  - apply (bool_decide_unpack _). vm_compute. exact I.
  - apply Nat.ltb_lt. vm_compute. reflexivity.
  - exists pd, st'. split; [exact H1|]. rewrite H2. vm_compute. reflexivity.
Defined.

(** * Further properties of the services *)

(** ** How the index and the queue evolve *)

Lemma index_grows_refl v : index_grows v v.
Proof.
  destruct v as [index|]; [|constructor].
  rewrite <- (app_nil_r index) at 2. constructor. constructor.
Qed.

Lemma index_grows_trans v1 v2 v3 : index_grows v1 v2 -> index_grows v2 v3 -> index_grows v1 v3.
Proof.
  intros H12 H23. destruct H12 as [|more H|index more H].
  - exact H23.
  - inversion H23 as [| |index more' H' E1 E2]; subst.
    change ((sentinel :: more) ++ more') with (sentinel :: (more ++ more')).
    constructor. apply Forall_app. auto.
  - inversion H23 as [| |index' more' H' E1 E2]; subst.
    rewrite <- app_assoc. constructor. apply Forall_app. auto.
Qed.

Lemma evolves_refl st : evolves st st.
Proof. split; [auto|apply index_grows_refl]. Qed.

Lemma evolves_trans st1 st2 st3 : evolves st1 st2 -> evolves st2 st3 -> evolves st1 st3.
Proof.
  intros [P12 G12] [P23 G23]. split; [auto|]. eapply index_grows_trans; eassumption.
Qed.

Lemma evolves_same_gateway st st' :
  pendingMessages st' = pendingMessages st -> vectorStore st' = vectorStore st ->
  evolves st st'.
Proof. intros Hp Hv. split; [congruence|]. rewrite Hv. apply index_grows_refl. Qed.

Lemma evolving_ret {A : Type} (a : A) : evolving (mret a).
Proof. intros w st. apply evolves_refl. Qed.

Lemma evolving_throw {A : Type} (e : string) : evolving (@throw A e).
Proof. intros w st. apply evolves_refl. Qed.

Lemma evolving_bind {A B : Type} (c : M A) (f : A -> M B) :
  evolving c -> (forall a, evolving (f a)) -> evolving (c ≫= f).
Proof.
  intros Hc Hf w st. rewrite bind_run. specialize (Hc w st).
  destruct (c w st) as [[a|e] st1]; simpl in *; [|exact Hc].
  eapply evolves_trans; [exact Hc|apply Hf].
Qed.

Lemma evolving_try_catch {A : Type} (c : M A) (h : string -> M A) :
  evolving c -> (forall e, evolving (h e)) -> evolving (try_catch c h).
Proof.
  intros Hc Hh w st. unfold try_catch. specialize (Hc w st).
  destruct (c w st) as [[a|e] st1]; simpl in *; [exact Hc|].
  eapply evolves_trans; [exact Hc|apply Hh].
Qed.

Lemma evolving_with_uuid {A : Type} (u : string) (c : M A) :
  evolving c -> evolving (with_uuid u c).
Proof. intros Hc w st. apply Hc. Qed.

Lemma evolving_with_now {A : Type} (t : Z) (c : M A) :
  evolving c -> evolving (with_now t c).
Proof. intros Hc w st. apply Hc. Qed.

Lemma evolving_ask : evolving ask.
Proof. intros w st. apply evolves_refl. Qed.

Lemma evolving_get_state : evolving get_state.
Proof. intros w st. apply evolves_refl. Qed.

Lemma tagged_chat_document m : tagged (chat_document m).
Proof. unfold tagged. simpl. eauto. Qed.

Lemma tagged_embedded w ms : Forall tagged (embedded w ms).
Proof.
  unfold embedded. apply Forall_fmap, Forall_forall. intros m _. apply tagged_chat_document.
Qed.

Lemma evolving_store_addDocuments docs :
  Forall tagged docs -> evolving (store_addDocuments docs).
Proof.
  intros Ht w st. unfold store_addDocuments. munfold.
  destruct (vectorStore st) as [index|] eqn:E; simpl; [|apply evolves_refl].
  destruct (addDocuments_ok w docs); simpl; [|apply evolves_refl].
  split; [auto|]. simpl. rewrite E. constructor. exact Ht.
Qed.

(** Building the index where there is none. *)
Lemma evolves_initializeVectorStoreWithKey key w st :
  vectorStore st = None -> evolves st (_initializeVectorStoreWithKey key w st).2.
Proof.
  intros Hs. rewrite initializeVectorStoreWithKey_spec.
  destruct (JS.truthy_str key); [|apply evolves_refl].
  destruct (fromTexts_ok w); [|apply evolves_refl].
  split; [reflexivity|]. simpl. rewrite Hs. constructor. apply tagged_embedded.
Qed.

Lemma evolving_ensure_store_or_bail key : evolving (ensure_store_or_bail key).
Proof.
  intros w st. rewrite ensure_store_or_bail_spec.
  destruct (vectorStore st) eqn:Hs; simpl; [apply evolves_refl|].
  apply evolves_initializeVectorStoreWithKey, Hs.
Qed.

Lemma evolves_addMessageToStore m key w st :
  JS.truthy key = true -> evolves st (_addMessageToStore m key w st).2.
Proof.
  intros Hk. unfold _addMessageToStore, addMessageToStore_body.
  rewrite try_catch_rethrow, Hk. cbn [negb]. rewrite bind_run. unfold get_state at 1.
  cbv iota beta. rewrite bind_run.
  assert (Hadd : evolving (store_addDocuments [chat_document m])).
  { apply evolving_store_addDocuments. constructor; [apply tagged_chat_document|constructor]. }
  destruct (vectorStore st) eqn:Hs.
  - cbn [mret M_ret]. apply Hadd.
  - pose proof (evolves_initializeVectorStoreWithKey (default "" key) w st Hs) as Hi.
    destruct (_initializeVectorStoreWithKey (default "" key) w st) as [[[]|e] st1];
      simpl in *; [|exact Hi].
    eapply evolves_trans; [exact Hi|apply Hadd].
Qed.

Lemma evolves_session_updated m w st : evolves st (session_updated m w st).
Proof. apply evolves_same_gateway; apply session_updated_frame. Qed.

Lemma evolving_addChatMessage m key : evolving (addChatMessage m key).
Proof.
  intros w st. rewrite addChatMessage_spec.
  destruct (JS.truthy key) eqn:Hk; simpl; [|apply evolves_session_updated].
  eapply evolves_trans; [apply evolves_session_updated|].
  pose proof (evolves_addMessageToStore m key w (session_updated m w st) Hk) as H.
  unfold fire_and_forget, try_catch.
  destruct (_addMessageToStore m key w (session_updated m w st)) as [[[]|e] st1]; exact H.
Qed.

Lemma evolving_addChatMessageSync m key : evolving (addChatMessageSync m key).
Proof.
  intros w st. rewrite addChatMessageSync_spec.
  destruct (JS.truthy key) eqn:Hk; simpl; [|apply evolves_session_updated].
  eapply evolves_trans; [apply evolves_session_updated|].
  apply evolves_addMessageToStore, Hk.
Qed.

Lemma evolving_getCurrentSession u : evolving (getCurrentSession u).
Proof.
  intros w st. rewrite getCurrentSession_spec.
  destruct (current_ref u st); simpl; [apply evolves_refl|].
  apply evolves_same_gateway; reflexivity.
Qed.

Lemma evolving_getRecentMessages u limit : evolving (getRecentMessages u limit).
Proof. intros w st. rewrite getRecentMessages_state. apply evolving_getCurrentSession. Qed.

Lemma evolving_store_similaritySearchWithScore query k :
  evolving (store_similaritySearchWithScore query k).
Proof.
  intros w st. unfold store_similaritySearchWithScore. munfold.
  destruct (vectorStore st); [|apply evolves_refl].
  destruct (similaritySearchWithScore w l query k); apply evolves_refl.
Qed.

Lemma evolving_searchRelevantHistory query u key limit :
  evolving (searchRelevantHistory query u key limit).
Proof.
  unfold searchRelevantHistory. destruct (negb (JS.truthy key)); [apply evolving_ret|].
  apply evolving_bind; [apply evolving_ensure_store_or_bail|]. intros [|]; [apply evolving_ret|].
  destruct (blank query); [apply evolving_ret|].
  apply evolving_try_catch; [|intros; apply evolving_ret].
  apply evolving_bind; [apply evolving_store_similaritySearchWithScore|].
  intros; apply evolving_ret.
Qed.

Lemma evolving_searchRelevantDocuments query u key limit :
  evolving (searchRelevantDocuments query u key limit).
Proof.
  unfold searchRelevantDocuments. destruct (negb (JS.truthy key)); [apply evolving_ret|].
  apply evolving_bind; [apply evolving_ensure_store_or_bail|]. intros [|]; [apply evolving_ret|].
  destruct (blank query);
    (apply evolving_try_catch; [|intros; apply evolving_ret]);
    (apply evolving_bind; [apply evolving_store_similaritySearchWithScore|]);
    intros; apply evolving_ret.
Qed.

Lemma evolving_searchDocuments query u key limit :
  evolving (searchDocuments query u key limit).
Proof.
  apply evolving_try_catch; [apply evolving_searchRelevantDocuments|intros; apply evolving_ret].
Qed.

Lemma evolving_getChatContext query u key : evolving (getChatContext query u key).
Proof.
  unfold getChatContext.
  apply evolving_bind; [apply evolving_searchRelevantHistory|]. intros h.
  apply evolving_bind; [apply evolving_getRecentMessages|]. intros r. apply evolving_ret.
Qed.

Lemma tagged_chunk_document documentId chunk : tagged (chunk_document documentId chunk).
Proof. unfold tagged. simpl. eauto. Qed.

Lemma evolving_addDocuments docs key :
  Forall tagged docs -> evolving (addDocuments docs key).
Proof.
  intros Ht w st. unfold addDocuments.
  destruct (negb (JS.truthy_str key)); [apply evolves_refl|].
  rewrite bind_run. unfold get_state at 1. cbv iota beta. rewrite bind_run.
  assert (Hadd : evolving (try_catch (store_addDocuments docs) throw)).
  { apply evolving_try_catch; [apply evolving_store_addDocuments, Ht|].
    intros e. apply evolving_throw. }
  destruct (vectorStore st) eqn:Hs.
  - cbn [mret M_ret]. apply Hadd.
  - pose proof (evolves_initializeVectorStoreWithKey key w st Hs) as Hi.
    destruct (_initializeVectorStoreWithKey key w st) as [[[]|e] st1];
      simpl in *; [|exact Hi].
    eapply evolves_trans; [exact Hi|apply Hadd].
Qed.

Lemma evolving_processDocument splitText file u key :
  evolving (processDocument splitText file u key).
Proof.
  unfold processDocument. apply evolving_try_catch; [|intros; apply evolving_throw].
  destruct (negb (JS.truthy_str key)); [apply evolving_throw|].
  apply evolving_bind.
  { destruct (bool_decide (mimetype file = "text/plain")); [apply evolving_ret|].
    destruct (bool_decide (mimetype file = "application/pdf")); [|apply evolving_throw].
    destruct (pdf_text file); [apply evolving_ret|apply evolving_throw]. }
  intros text. apply evolving_bind; [apply evolving_ask|]. intros w0.
  apply evolving_bind; [|intros; apply evolving_ret].
  apply evolving_addDocuments, Forall_fmap, Forall_forall.
  intros chunk _. apply tagged_chunk_document.
Qed.

Lemma evolving_getDocumentList u key : evolving (getDocumentList u key).
Proof.
  unfold getDocumentList. apply evolving_try_catch; [|intros; apply evolving_ret].
  destruct (negb (JS.truthy key)); [apply evolving_ret|].
  apply evolving_bind; [apply evolving_searchRelevantDocuments|intros; apply evolving_ret].
Qed.

Lemma evolving_getChatHistory u query key : evolving (getChatHistory u query key).
Proof.
  unfold getChatHistory. destruct (JS.truthy query); [|apply evolving_ret].
  destruct (negb (JS.truthy key)).
  - apply evolving_bind; [apply evolving_getRecentMessages|intros; apply evolving_ret].
  - apply evolving_bind; [apply evolving_searchRelevantHistory|intros; apply evolving_ret].
Qed.

Lemma evolving_createChatMessage r c u : evolving (createChatMessage r c u).
Proof.
  unfold createChatMessage. apply evolving_bind; [apply evolving_ask|intros; apply evolving_ret].
Qed.

Lemma evolving_processChat request : evolving (processChat request).
Proof.
  unfold processChat. apply evolving_try_catch; [|intros; apply evolving_throw].
  destruct (negb (JS.truthy (req_userApiKey request))); [apply evolving_throw|].
  apply evolving_bind; [apply evolving_ask|]. intros w0.
  apply evolving_bind; [apply evolving_createChatMessage|]. intros userMessage.
  apply evolving_bind; [apply evolving_get_state|]. intros st0.
  apply evolving_bind; [apply evolving_with_uuid, evolving_getChatContext|]. intros cc.
  apply evolving_bind; [apply evolving_searchDocuments|]. intros docs.
  apply evolving_bind.
  { destruct (llm_invoke w0 _ _); [apply evolving_ret|apply evolving_throw]. }
  intros text. apply evolving_with_now.
  apply evolving_bind; [apply evolving_with_uuid, evolving_createChatMessage|].
  intros assistantMessage.
  apply evolving_bind; [apply evolving_get_state|]. intros st1.
  apply evolving_bind; [apply evolving_with_uuid, evolving_addChatMessage|]. intros _.
  apply evolving_bind; [apply evolving_with_uuid, evolving_addChatMessage|]. intros _.
  apply evolving_ret.
Qed.

Lemma evolving_initialize : evolving initialize.
Proof.
  intros w st. unfold initialize, _doInitialize. munfold.
  destruct (isInitialized st); simpl; [apply evolves_refl|].
  apply evolves_same_gateway; reflexivity.
Qed.

Lemma evolves_cleanup l : forall st, evolves st (foldl cleanup_session st l).
Proof.
  induction l as [|x l IH]; intros st; simpl; [apply evolves_refl|].
  eapply evolves_trans; [|apply IH].
  unfold cleanup_session. destruct (conversationSessions st !! x); [|apply evolves_refl].
  simpl. destruct (bool_decide _); apply evolves_same_gateway; reflexivity.
Qed.

Lemma evolves_step st op : evolves st (step st op).
Proof.
  destruct op; simpl.
  - apply evolving_initialize.
  - apply evolving_addChatMessage.
  - apply evolving_addChatMessageSync.
  - apply evolving_searchRelevantHistory.
  - apply evolving_searchRelevantDocuments.
  - apply evolving_searchDocuments.
  - apply evolving_getChatContext.
  - apply evolving_getRecentMessages.
  - rewrite startNewConversation_state. rewrite getCurrentSession_spec.
    destruct (current_ref u _); simpl; apply evolves_same_gateway; reflexivity.
  - unfold cleanupExpiredSessions. munfold. simpl. apply evolves_cleanup.
  - apply evolving_processDocument.
  - apply evolving_getDocumentList.
  - apply evolving_processChat.
  - apply evolving_getChatHistory.
Qed.

Lemma evolves_after ops : evolves initial_state (after ops).
Proof.
  unfold after. induction ops as [|op ops IH] using rev_ind; [apply evolves_refl|].
  rewrite foldl_app. simpl. eapply evolves_trans; [exact IH|apply evolves_step].
Qed.


(** X2.  Starting from the initial state, whatever operations run, one
    after the other, the pending queue is empty: [getStats] always reports
    0 pending messages. *)
Theorem pending_queue_is_never_used ops :
  pendingMessages (after ops) = [] /\ stats_pendingMessages (getStats (after ops)) = 0.
Proof.
  destruct (evolves_after ops) as [Hp _]. specialize (Hp eq_refl).
  split; [exact Hp|]. unfold getStats. simpl. rewrite Hp. reflexivity.
Qed.

(** X3.  Starting from the initial state, whatever operations run, an
    index that exists starts with the seed item, which carries no user id,
    and every item after it carries a user id. *)
Theorem index_is_seed_then_tagged ops index :
  vectorStore (after ops) = Some index ->
  exists items, index = sentinel :: items /\ Forall tagged items
                /\ md_userId (metadata sentinel) = None.
Proof.
  intros Hs. destruct (evolves_after ops) as [_ Hg]. rewrite Hs in Hg.
  inversion Hg as [|more Ht E1 E2|]; subst. exists more. auto.
Qed.

Lemma index_is_seed_then_tagged_witness :
  exists items,
    [sentinel; chat_document Samples.hello_alice] = sentinel :: items
    /\ Forall tagged items
    /\ md_userId (metadata sentinel) = None.
Proof.
  apply (index_is_seed_then_tagged
           [OpAddChatMessageSync Samples.hello_alice (Some "sk-1") Samples.provider_up]).
  vm_compute. reflexivity.
Defined.

(** ** More on the searches *)

Lemma selection_length hit limit results : length (selection hit limit results) <= limit.
Proof. unfold selection, JS.slice_first. rewrite length_take. lia. Qed.

(** X4.  [searchRelevantHistory], [searchRelevantDocuments] and
    [searchDocuments] never reject, whatever the provider does, and resolve
    with at most [limit] documents. *)
Theorem search_resolves_within_limit query u key limit w st :
  exists history documents found,
    (searchRelevantHistory query u key limit w st).1 = Ok history
    /\ (searchRelevantDocuments query u key limit w st).1 = Ok documents
    /\ (searchDocuments query u key limit w st).1 = Ok found
    /\ length history <= limit /\ length documents <= limit /\ length found <= limit.
Proof.
  destruct (searchRelevantHistory_shape query u key limit w st) as (h & Hh & Hhs).
  destruct (searchRelevantDocuments_shape query u key limit w st) as (d & Hd & Hds).
  exists h, d, d. split; [exact Hh|]. split; [exact Hd|].
  assert (Hlh : length h <= limit).
  { destruct Hhs as [->|[results ->]]; [simpl; lia|apply selection_length]. }
  assert (Hld : length d <= limit).
  { destruct Hds as [->|[[results ->]|[results ->]]];
      [simpl; lia|apply selection_length|apply selection_length]. }
  split; [|auto].
  unfold searchDocuments, try_catch.
  destruct (searchRelevantDocuments query u key limit w st) as [[d'|e] st1];
    simpl in *; congruence.
Qed.

Lemma above_threshold_lt score : above_threshold score = true -> (6 # 10 < score)%Q.
Proof.
  unfold above_threshold. intros H. apply negb_true_iff in H.
  apply Qnot_le_lt. intros Hle. apply Qle_bool_iff in Hle. congruence.
Qed.

Lemma selection_sublist hit limit results : selection hit limit results `sublist_of` results.*1.
Proof.
  unfold selection, JS.slice_first.
  etransitivity; [apply sublist_take|]. apply fmap_sublist, sublist_filter.
Qed.

(** X5.  A non-empty answer of [searchRelevantHistory] is drawn, in
    order, from the candidates that the similarity search proposed for
    [2 * limit] on the index of the resulting state, and every returned
    document was proposed with a score above 0.6. *)
Theorem history_hits_are_strong_candidates query u key limit w st docs st' :
  searchRelevantHistory query u key limit w st = (Ok docs, st') ->
  docs <> [] ->
  exists index results,
    vectorStore st' = Some index
    /\ similaritySearchWithScore w index query (limit * 2) = Some results
    /\ docs `sublist_of` results.*1
    /\ forall d, d ∈ docs -> exists score, (d, score) ∈ results /\ (6 # 10 < score)%Q.
Proof.
  unfold searchRelevantHistory. destruct (negb (JS.truthy key)).
  { intros H. injection H as <- _. congruence. }
  rewrite bind_run, ensure_store_or_bail_spec.
  assert (Hsearch : forall st1,
    (if blank query then mret []
     else try_catch
            (results ← store_similaritySearchWithScore query (limit * 2);
             mret (JS.slice_first limit
                     (fst <$> filter (fun r => history_hit u r = true) results)))
            (fun _ => mret [])) w st1 = (Ok docs, st') ->
    docs <> [] ->
    exists index results,
      vectorStore st' = Some index
      /\ similaritySearchWithScore w index query (limit * 2) = Some results
      /\ docs `sublist_of` results.*1
      /\ forall d, d ∈ docs -> exists score, (d, score) ∈ results /\ (6 # 10 < score)%Q).
  { intros st1. destruct (blank query).
    { intros H. injection H as <- _. congruence. }
    unfold store_similaritySearchWithScore. munfold.
    destruct (vectorStore st1) as [index|] eqn:Hs.
    2:{ intros H. injection H as <- _. congruence. }
    destruct (similaritySearchWithScore w index query (limit * 2)) as [results|] eqn:Hr.
    2:{ intros H. injection H as <- _. congruence. }
    intros H _. injection H as <- <-. exists index, results.
    split; [exact Hs|]. split; [exact Hr|]. split; [apply selection_sublist|].
    intros d Hd. apply elem_of_take in Hd as (i & Hd & _).
    apply list_elem_of_lookup_2, list_elem_of_fmap in Hd as ([d' score] & -> & Hd).
    apply list_elem_of_filter in Hd as [Hhit Hd]. exists score. split; [exact Hd|].
    unfold history_hit in Hhit. apply andb_prop in Hhit as [Hhit _].
    apply andb_prop in Hhit as [_ Hhit]. apply above_threshold_lt, Hhit. }
  destruct (vectorStore st).
  - apply Hsearch.
  - destruct (_initializeVectorStoreWithKey (default "" key) w st) as [[[]|e] st1]; simpl.
    + apply Hsearch.
    + intros H. injection H as <- _. congruence.
Qed.

Lemma history_hits_are_strong_candidates_witness :
  exists index results,
    vectorStore Samples.indexed = Some index
    /\ similaritySearchWithScore Samples.provider_up index "budget" (5 * 2) = Some results
    /\ [chat_document Samples.hello_alice] `sublist_of` results.*1
    /\ forall d, d ∈ [chat_document Samples.hello_alice] ->
                 exists score, (d, score) ∈ results /\ (6 # 10 < score)%Q.
Proof.
  apply (history_hits_are_strong_candidates "budget" "alice" (Some "sk-1") 5
           Samples.provider_up Samples.indexed).
  - vm_compute. reflexivity.
  - discriminate.
Defined.

(** X6.  Without a credential, or once the index exists, a search only
    reads: the whole state of the service is as before. *)
Theorem search_is_read_only query u key limit w st :
  JS.truthy key = false \/ vectorStore st <> None ->
  (searchRelevantHistory query u key limit w st).2 = st
  /\ (searchRelevantDocuments query u key limit w st).2 = st
  /\ (searchDocuments query u key limit w st).2 = st.
Proof.
  intros H.
  assert (Hs : forall (g : list (Document * Q) -> list Document) q k st1,
             (try_catch (results ← store_similaritySearchWithScore q k; mret (g results))
                        (fun _ => mret []) w st1).2 = st1).
  { intros g q k st1. unfold store_similaritySearchWithScore. munfold.
    destruct (vectorStore st1); [|reflexivity].
    destruct (similaritySearchWithScore w l q k); reflexivity. }
  assert (Hd : (searchRelevantDocuments query u key limit w st).2 = st).
  { unfold searchRelevantDocuments. destruct (JS.truthy key) eqn:Hk; cbn [negb]; [|reflexivity].
    destruct H as [H|H]; [discriminate|].
    rewrite bind_run, ensure_store_or_bail_spec.
    destruct (vectorStore st); [|congruence]. destruct (blank query); apply Hs. }
  split; [|split; [exact Hd|]].
  - unfold searchRelevantHistory. destruct (JS.truthy key) eqn:Hk; cbn [negb]; [|reflexivity].
    destruct H as [H|H]; [discriminate|].
    rewrite bind_run, ensure_store_or_bail_spec.
    destruct (vectorStore st); [|congruence]. destruct (blank query); [reflexivity|apply Hs].
  - unfold searchDocuments, try_catch.
    destruct (searchRelevantDocuments query u key limit w st) as [[d|e] st1]; exact Hd.
Qed.

Lemma search_is_read_only_witness :
  (searchRelevantHistory "budget" "alice" (Some "sk-1") 5 Samples.provider_up Samples.indexed).2
  = Samples.indexed.
Proof.
  apply (search_is_read_only "budget" "alice" (Some "sk-1") 5 Samples.provider_up
           Samples.indexed).
  right. discriminate.
Defined.

(** ** More on the session store *)

Lemma current_ref_Some u st ref :
  current_ref u st = Some ref ->
  userCurrentSessions st !! u = Some ref /\ JS.truthy_str ref = true
  /\ exists s, conversationSessions st !! ref = Some s.
Proof.
  unfold current_ref. destruct (userCurrentSessions st !! u) as [sid|]; [|discriminate].
  destruct (JS.truthy_str sid) eqn:Ht; [|discriminate].
  destruct (conversationSessions st !! sid) as [s|] eqn:Hs; [|discriminate].
  intros H. injection H as <-. eauto.
Qed.

(** X7.  [getRecentMessages] resolves with the most recent messages of
    the user's current session, oldest first: the last [limit] of them (the
    last 15 when no limit, or 0, is given), or all of them when there are
    fewer. *)
Theorem getRecentMessages_most_recent u limit w st :
  exists recent ref s older,
    getRecentMessages u limit w st = (Ok recent, (getRecentMessages u limit w st).2)
    /\ userCurrentSessions (getRecentMessages u limit w st).2 !! u = Some ref
    /\ conversationSessions (getRecentMessages u limit w st).2 !! ref = Some s
    /\ messages s = older ++ recent
    /\ length recent
       = (match limit with Some (S n) => S n | _ => MAX_RECENT_MESSAGES end)
           `min` length (messages s).
Proof.
  unfold getRecentMessages. rewrite bind_run, getCurrentSession_spec.
  set (lim := match limit with Some (S n) => S n | _ => MAX_RECENT_MESSAGES end).
  assert (Hlim : exists n, lim = S n).
  { unfold lim, MAX_RECENT_MESSAGES. destruct limit as [[|n]|]; eauto. }
  destruct Hlim as [n Hn].
  assert (Hslice : forall l : list ChatMessage,
             l = take (length l - lim) l ++ JS.slice_last lim l
             /\ length (JS.slice_last lim l) = lim `min` length l).
  { intros l. rewrite Hn. unfold JS.slice_last. rewrite take_drop, length_drop.
    split; [reflexivity|lia]. }
  destruct (current_ref u st) as [ref|] eqn:Hc.
  - apply current_ref_Some in Hc as (Hp & _ & s & Hs). munfold. unfold deref. simpl.
    rewrite Hs. simpl. destruct (Hslice (messages s)) as [H1 H2].
    exists (JS.slice_last lim (messages s)), ref, s, (take (length (messages s) - lim) (messages s)).
    auto.
  - munfold. unfold deref, with_new_session. simpl. rewrite lookup_insert_eq. simpl.
    exists (JS.slice_last lim []), (uuid w), (mkSession (uuid w) u [] (now w) (now w)), [].
    rewrite !lookup_insert_eq. rewrite Hn. simpl. auto.
Qed.

(** X8.  Appending a message for one user leaves what [getSessionInfo]
    reports for another user as it was, as long as the two users do not
    share a session and the identifier drawn for a new session is not the
    other user's. *)
Theorem append_leaves_other_users_alone m key w st v :
  userId m <> v ->
  (forall sid, userCurrentSessions st !! v = Some sid ->
               sid <> uuid w /\ userCurrentSessions st !! userId m <> Some sid) ->
  getSessionInfo v (addChatMessage m key w st).2 = getSessionInfo v st
  /\ getSessionInfo v (addChatMessageSync m key w st).2 = getSessionInfo v st.
Proof.
  intros Huv Hsid.
  assert (H : getSessionInfo v (session_updated m w st) = getSessionInfo v st).
  { unfold getSessionInfo, session_updated.
    destruct (current_ref (userId m) st) as [ref|] eqn:Hc; simpl.
    - apply current_ref_Some in Hc as (Hp & _).
      destruct (userCurrentSessions st !! v) as [sid|] eqn:Hv; [|reflexivity].
      destruct (Hsid sid eq_refl) as [_ Hne].
      rewrite lookup_alter_ne by (intros E; apply Hne; rewrite <- E; exact Hp). reflexivity.
    - rewrite lookup_insert_ne by exact Huv.
      destruct (userCurrentSessions st !! v) as [sid|] eqn:Hv; [|reflexivity].
      destruct (Hsid sid eq_refl) as [Hne _].
      rewrite lookup_alter_ne, lookup_insert_ne by (intros E; congruence). reflexivity. }
  destruct (addChatMessage_sessions m key w st) as [Hc Hp].
  destruct (addChatMessageSync_sessions m key w st) as [Hc' Hp'].
  unfold getSessionInfo in *. rewrite Hc, Hp, Hc', Hp'. auto.
Qed.

Lemma append_leaves_other_users_alone_witness :
  getSessionInfo "alice" (addChatMessage Samples.hello_bob None
                            (Samples.at_time (2 * Samples.hour) "s-bob")
                            one_recent_message).2
  = getSessionInfo "alice" one_recent_message.
Proof.
  apply (append_leaves_other_users_alone Samples.hello_bob None
           (Samples.at_time (2 * Samples.hour) "s-bob") one_recent_message "alice").
  - discriminate.
  - intros sid Hsid. vm_compute in Hsid. injection Hsid as <-.
    split; [discriminate|]. vm_compute. discriminate.
Defined.

Lemma expiredSessions_after_cleanup nowms st :
  expiredSessions nowms (foldl cleanup_session st (expiredSessions nowms st)) = [].
Proof.
  apply elem_of_nil_inv. intros sid Hin.
  apply elem_of_expiredSessions in Hin as (s & Hs & He).
  rewrite cleanup_sessions_lookup in Hs.
  destruct (decide (sid ∈ expiredSessions nowms st)) as [|Hout]; [discriminate|].
  apply Hout, elem_of_expiredSessions. eauto.
Qed.

(** X9.  Sweeping twice at the same instant is sweeping once. *)
Theorem sweep_is_idempotent w st :
  (cleanupExpiredSessions w (cleanupExpiredSessions w st).2).2 = (cleanupExpiredSessions w st).2.
Proof.
  unfold cleanupExpiredSessions. munfold. simpl.
  rewrite expiredSessions_after_cleanup. reflexivity.
Qed.

(** X10.  A conversation that received a message survives every sweep
    of the following 48 hours: it is still the user's current session, its
    last message is that message and its activity the time of the
    message. *)
Theorem recent_conversation_survives_sweep m key w w' st :
  (now w' - now w <= 48 * 3600000)%Z ->
  exists ref s,
    userCurrentSessions (cleanupExpiredSessions w' (addChatMessage m key w st).2).2
      !! userId m = Some ref
    /\ conversationSessions (cleanupExpiredSessions w' (addChatMessage m key w st).2).2
         !! ref = Some s
    /\ last (messages s) = Some m
    /\ lastActivity s = now w.
Proof.
  intros Hage. destruct (session_updated_current m w st) as (ref & s0 & Hp & Hs).
  destruct (addChatMessage_sessions m key w st) as [Hc Hu].
  rewrite <- Hc in Hs. rewrite <- Hu in Hp.
  set (st1 := (addChatMessage m key w st).2) in *.
  exists ref, (appended m (now w) s0).
  unfold cleanupExpiredSessions. munfold. simpl.
  assert (Hout : ref ∉ expiredSessions (now w') st1).
  { rewrite elem_of_expiredSessions. intros (s' & Hs' & He).
    rewrite Hs in Hs'. injection Hs' as <-.
    unfold expired, MAX_SESSION_AGE_HOURS in He. rewrite appended_lastActivity in He.
    apply Z.ltb_lt in He. lia. }
  split; [apply cleanup_pointer_kept; assumption|].
  split; [rewrite cleanup_sessions_lookup, decide_False by exact Hout; exact Hs|].
  split; [apply appended_last|apply appended_lastActivity].
Qed.

Lemma recent_conversation_survives_sweep_witness :
  exists ref s,
    userCurrentSessions
      (cleanupExpiredSessions (Samples.at_time (47 * Samples.hour) "s-3")
         (addChatMessage Samples.hello_alice None (Samples.at_time 0 "s-alice")
            initial_state).2).2 !! "alice" = Some ref
    /\ conversationSessions
         (cleanupExpiredSessions (Samples.at_time (47 * Samples.hour) "s-3")
            (addChatMessage Samples.hello_alice None (Samples.at_time 0 "s-alice")
               initial_state).2).2 !! ref = Some s
    /\ last (messages s) = Some Samples.hello_alice
    /\ lastActivity s = 0%Z.
Proof.
  apply (recent_conversation_survives_sweep Samples.hello_alice None
           (Samples.at_time 0 "s-alice") (Samples.at_time (47 * Samples.hour) "s-3")
           initial_state).
  vm_compute. discriminate.
Defined.

(** X11.  Once the sweep has removed a user's conversation, idle for
    more than 48 hours, [getSessionInfo] reports no session for the user,
    and the next message opens a new conversation that holds this message
    only. *)
Theorem expired_conversation_restarts u sid s m key w w' st :
  userCurrentSessions st !! u = Some sid ->
  conversationSessions st !! sid = Some s ->
  s_userId s = u ->
  (48 * 3600000 < now w - lastActivity s)%Z ->
  userId m = u ->
  getSessionInfo u (cleanupExpiredSessions w st).2 = None
  /\ userCurrentSessions (addChatMessage m key w' (cleanupExpiredSessions w st).2).2 !! u
     = Some (uuid w')
  /\ conversationSessions (addChatMessage m key w' (cleanupExpiredSessions w st).2).2
       !! uuid w'
     = Some (mkSession (uuid w') u [m] (now w') (now w')).
Proof.
  intros Hp Hs Hu Hold Hm.
  assert (Hnone : userCurrentSessions (cleanupExpiredSessions w st).2 !! u = None).
  { unfold cleanupExpiredSessions. munfold. simpl. rewrite <- Hu.
    apply (cleanup_pointer_cleared _ _ sid s); [|exact Hs|rewrite Hu; exact Hp].
    apply elem_of_expiredSessions. exists s. split; [exact Hs|].
    unfold expired, MAX_SESSION_AGE_HOURS. apply Z.ltb_lt. lia. }
  set (st1 := (cleanupExpiredSessions w st).2) in *.
  split; [unfold getSessionInfo; rewrite Hnone; reflexivity|].
  destruct (addChatMessage_sessions m key w' st1) as [-> ->].
  unfold session_updated, current_ref. rewrite Hm, Hnone. simpl.
  split; [apply lookup_insert_eq|].
  rewrite lookup_alter_eq, lookup_insert_eq. reflexivity.
Qed.

Lemma expired_conversation_restarts_witness :
  getSessionInfo "alice"
    (cleanupExpiredSessions (Samples.at_time (49 * Samples.hour) "s-3") two_sessions).2 = None.
Proof.
  apply (expired_conversation_restarts "alice" "s-alice"
           (mkSession "s-alice" "alice" [Samples.hello_alice] 0 0)
           Samples.hello_alice None
           (Samples.at_time (49 * Samples.hour) "s-3")
           (Samples.at_time (50 * Samples.hour) "s-4") two_sessions).
  - vm_compute. reflexivity.
  - vm_compute. reflexivity.
  - reflexivity.
  - vm_compute. reflexivity.
  - reflexivity.
Defined.

(** ** More on the chat service *)

(** X12.  The object that [getChatHistory] builds from the document
    stored for a chat message is that message again: the role prefix put in
    front of the content by [_addMessageToStore] is the one that
    [getChatHistory] strips. *)
Theorem stored_message_reads_back m :
  entry_of_document (chat_document m) = entry_of_message m.
Proof.
  unfold entry_of_document, entry_of_message, chat_document.
  cbn [metadata pageContent md_id md_role md_timestamp md_userId]. f_equal.
  unfold strip_role_prefix. destruct (role m); cbn; destruct (content m); reflexivity.
Qed.

Lemma processChat_error_message request w st e st' :
  processChat request w st = (Err e, st') -> e = "Failed to process chat message".
Proof.
  unfold processChat, try_catch, throw.
  destruct (_ w st) as [[a|e0] st1]; [discriminate|]. intros H. injection H as <- _.
  reflexivity.
Qed.

(** X13.  When [processChat] fails, for whatever reason, [POST /api/chat]
    answers 500 with the text of the general failure: the error that
    reaches the handler never mentions the API key, so the answer with the
    code API_KEY_REQUIRED is never given; in particular a valid request
    without a key is answered 500, the service being left as it was. *)
Theorem chat_route_never_asks_for_the_key auth message key w st :
  match (chat_route auth message key w st).1 with
  | Ok (inr (mkHttpError status error code)) =>
      code = None /\ (status = 401 \/ status = 400 \/ status = 500)
  | Ok (inl _) => exists response, (processChat (mkChatRequest message (default "" auth) key)
                                      w st).1 = Ok response
  | Err _ => False
  end
  /\ (JS.truthy auth = true ->
      (1 <= String.length message <= 1000) ->
      JS.truthy key = false ->
      chat_route auth message key w st
      = (Ok (inr (mkHttpError 500 "Failed to process chat message" None)), st)).
Proof.
  split.
  - unfold chat_route. destruct (negb (JS.truthy auth)); [simpl; auto|].
    destruct (negb _); [simpl; auto|].
    unfold try_catch. rewrite bind_run.
    destruct (processChat _ w st) as [[response|e] st1] eqn:Hp.
    + simpl. eauto.
    + apply processChat_error_message in Hp as ->. simpl. auto.
  - intros Ha [Hl1 Hl2] Hk. unfold chat_route. rewrite Ha. cbn [negb].
    assert (Hv : ((1 <=? String.length message)%nat && (String.length message <=? 1000)%nat)
                 = true).
    { apply andb_true_intro. split; apply Nat.leb_le; assumption. }
    rewrite Hv. cbn [negb]. unfold try_catch. rewrite bind_run.
    unfold processChat at 1. cbn [req_userApiKey]. rewrite Hk. reflexivity.
Qed.

Lemma chat_route_never_asks_for_the_key_witness :
  chat_route (Some "alice") "hi" None Samples.provider_up initial_state
  = (Ok (inr (mkHttpError 500 "Failed to process chat message" None)), initial_state).
Proof.
  apply (proj2 (chat_route_never_asks_for_the_key (Some "alice") "hi" None
                  Samples.provider_up initial_state)).
  - reflexivity.
  - simpl. lia.
  - reflexivity.
Defined.

(** X14.  Each part of the context has its cap - 8 recent messages, 4
    semantic hits, 3 documents, hence at most 3 sections - and no semantic
    hit repeats a recent message: every semantic item is the text of a
    history document whose id is not the id of a recent message. *)
Theorem context_sections_are_capped_and_deduplicated cc docs :
  length (recentContext cc) <= 8
  /\ length (semanticContext cc) <= 4
  /\ length (documentContext docs) <= 3
  /\ length (contextSections cc docs) <= 3
  /\ forall text, text ∈ semanticContext cc ->
       exists doc, doc ∈ relevantHistory cc /\ text = pageContent doc
                   /\ forall m, m ∈ recentMessages cc -> md_id (metadata doc) <> Some (id m).
Proof.
  split; [|split; [|split; [|split]]].
  - unfold recentContext, JS.slice_last. rewrite length_fmap, length_drop. lia.
  - unfold semanticContext, JS.slice_first. rewrite length_take. lia.
  - unfold documentContext, JS.slice_first. rewrite length_take. lia.
  - unfold contextSections. rewrite !length_app.
    destruct (0 <? length (recentContext cc))%nat,
             (0 <? length (semanticContext cc))%nat,
             (0 <? length (documentContext docs))%nat; simpl; lia.
  - intros text Ht. unfold semanticContext, JS.slice_first in Ht.
    apply elem_of_take in Ht as (i & Ht & _).
    apply list_elem_of_lookup_2, list_elem_of_fmap in Ht as (doc & -> & Hd).
    apply list_elem_of_filter in Hd as [Hhas Hd].
    exists doc. split; [exact Hd|]. split; [reflexivity|].
    intros m Hm Hid. unfold recentIds_has in Hhas. rewrite Hid in Hhas.
    apply bool_decide_eq_false in Hhas. apply Hhas.
    apply list_elem_of_fmap. exists m. auto.
Qed.

Lemma join_nonempty sep x l : x <> EmptyString -> JS.join sep (x :: l) <> EmptyString.
Proof.
  intros Hx. destruct l as [|y l]; [exact Hx|].
  change (JS.join sep (x :: y :: l)) with (x +:+ sep +:+ JS.join sep (y :: l)).
  destruct x; [congruence|discriminate].
Qed.

(** X15.  The context put into the prompt is never the empty string:
    with no recent message, no history and no document it is the sentence
    that says so. *)
Theorem prompt_context_is_never_empty cc docs :
  prompt_context (contextSections cc docs) <> EmptyString
  /\ (recentMessages cc = [] -> relevantHistory cc = [] -> docs = [] ->
      prompt_context (contextSections cc docs)
      = "No previous conversation context or document content available.").
Proof.
  split.
  - unfold prompt_context.
    destruct (contextSections cc docs) as [|x l] eqn:E; [discriminate|].
    change (0 <? length (x :: l))%nat with true. cbv iota.
    apply join_nonempty. unfold contextSections in E.
    destruct (0 <? length (recentContext cc))%nat;
      [injection E as <- _; discriminate|].
    destruct (0 <? length (semanticContext cc))%nat;
      [injection E as <- _; discriminate|].
    destruct (0 <? length (documentContext docs))%nat;
      [injection E as <- _; discriminate|discriminate].
  - intros Hr Hh ->. unfold contextSections, recentContext, semanticContext.
    rewrite Hr, Hh. reflexivity.
Qed.

Lemma same_sessions_refl st : same_sessions st st.
Proof. split; reflexivity. Qed.

Lemma same_sessions_trans st1 st2 st3 :
  same_sessions st1 st2 -> same_sessions st2 st3 -> same_sessions st1 st3.
Proof. intros [H1 H2] [H3 H4]. split; congruence. Qed.

Lemma session_neutral_ret {A : Type} (a : A) : session_neutral (mret a).
Proof. intros w st. apply same_sessions_refl. Qed.

Lemma session_neutral_bind {A B : Type} (c : M A) (f : A -> M B) :
  session_neutral c -> (forall a, session_neutral (f a)) -> session_neutral (c ≫= f).
Proof.
  intros Hc Hf w st. rewrite bind_run. specialize (Hc w st).
  destruct (c w st) as [[a|e] st1]; simpl in *; [|exact Hc].
  eapply same_sessions_trans; [exact Hc|apply Hf].
Qed.

Lemma session_neutral_try_catch {A : Type} (c : M A) (h : string -> M A) :
  session_neutral c -> (forall e, session_neutral (h e)) -> session_neutral (try_catch c h).
Proof.
  intros Hc Hh w st. unfold try_catch. specialize (Hc w st).
  destruct (c w st) as [[a|e] st1]; simpl in *; [exact Hc|].
  eapply same_sessions_trans; [exact Hc|apply Hh].
Qed.

Lemma session_neutral_store_search query k :
  session_neutral (store_similaritySearchWithScore query k).
Proof.
  intros w st. unfold store_similaritySearchWithScore. munfold.
  destruct (vectorStore st); [|apply same_sessions_refl].
  destruct (similaritySearchWithScore w l query k); apply same_sessions_refl.
Qed.

Lemma session_neutral_ensure key : session_neutral (ensure_store_or_bail key).
Proof.
  intros w st. rewrite ensure_store_or_bail_spec.
  destruct (vectorStore st); simpl; [apply same_sessions_refl|].
  apply initializeVectorStoreWithKey_sessions.
Qed.

Lemma session_neutral_searchRelevantHistory query u key limit :
  session_neutral (searchRelevantHistory query u key limit).
Proof.
  unfold searchRelevantHistory. destruct (negb (JS.truthy key)); [apply session_neutral_ret|].
  apply session_neutral_bind; [apply session_neutral_ensure|].
  intros [|]; [apply session_neutral_ret|].
  destruct (blank query); [apply session_neutral_ret|].
  apply session_neutral_try_catch; [|intros; apply session_neutral_ret].
  apply session_neutral_bind; [apply session_neutral_store_search|].
  intros; apply session_neutral_ret.
Qed.

Lemma session_neutral_searchDocuments query u key limit :
  session_neutral (searchDocuments query u key limit).
Proof.
  apply session_neutral_try_catch; [|intros; apply session_neutral_ret].
  unfold searchRelevantDocuments.
  destruct (negb (JS.truthy key)); [apply session_neutral_ret|].
  apply session_neutral_bind; [apply session_neutral_ensure|].
  intros [|]; [apply session_neutral_ret|].
  destruct (blank query);
    (apply session_neutral_try_catch; [|intros; apply session_neutral_ret]);
    (apply session_neutral_bind; [apply session_neutral_store_search|]);
    intros; apply session_neutral_ret.
Qed.

Lemma current_ref_same_sessions u st st' :
  same_sessions st st' -> current_ref u st' = current_ref u st.
Proof. intros [H1 H2]. unfold current_ref. rewrite H1, H2. reflexivity. Qed.

Lemma session_updated_same_sessions m w st st' :
  same_sessions st st' ->
  conversationSessions (session_updated m w st') = conversationSessions (session_updated m w st)
  /\ userCurrentSessions (session_updated m w st') = userCurrentSessions (session_updated m w st).
Proof.
  intros H. unfold session_updated. rewrite (current_ref_same_sessions _ _ _ H).
  destruct H as [H1 H2]. destruct (current_ref (userId m) st); simpl; rewrite ?H1, ?H2; auto.
Qed.

(** The state after [getChatContext], as far as the sessions go. *)
Lemma getChatContext_sessions query u key w st :
  exists cc,
    (getChatContext query u key w st).1 = Ok cc
    /\ conversationSessions (getChatContext query u key w st).2
       = conversationSessions (getCurrentSession u w st).2
    /\ userCurrentSessions (getChatContext query u key w st).2
       = userCurrentSessions (getCurrentSession u w st).2.
Proof.
  unfold getChatContext. rewrite bind_run.
  destruct (searchRelevantHistory_shape query u key 5 w st) as (h & Hh & _).
  pose proof (session_neutral_searchRelevantHistory query u key 5 w st) as Hn.
  destruct (searchRelevantHistory query u key 5 w st) as [r st1]. simpl in Hh, Hn. subst r.
  rewrite bind_run. unfold getRecentMessages. rewrite bind_run.
  rewrite !getCurrentSession_spec. rewrite (current_ref_same_sessions _ _ _ Hn).
  destruct Hn as [H1 H2].
  destruct (current_ref u st); munfold; simpl; eexists; rewrite ?H1, ?H2; auto.
Qed.

Lemma current_ref_after_getCurrentSession u w st :
  JS.truthy_str (uuid w) = true ->
  exists ref, current_ref u (getCurrentSession u w st).2 = Some ref.
Proof.
  intros Ht. rewrite getCurrentSession_spec.
  destruct (current_ref u st) as [ref|] eqn:Hc; simpl; [eauto|].
  exists (uuid w). unfold current_ref, with_new_session. simpl.
  rewrite lookup_insert_eq, Ht, lookup_insert_eq. reflexivity.
Qed.



Lemma searchDocuments_Ok query u key limit w st :
  exists found, (searchDocuments query u key limit w st).1 = Ok found.
Proof.
  destruct (searchRelevantDocuments_shape query u key limit w st) as (d & Hd & _).
  exists d. unfold searchDocuments, try_catch.
  destruct (searchRelevantDocuments query u key limit w st) as [[d'|e] st1];
    simpl in *; congruence.
Qed.

Lemma addChatMessage_Ok m key w st : (addChatMessage m key w st).1 = Ok tt.
Proof.
  rewrite addChatMessage_spec. destruct (negb (JS.truthy key)); [reflexivity|].
  unfold fire_and_forget, try_catch.
  destruct (_addMessageToStore m key w (session_updated m w st)) as [[[]|e] st1]; reflexivity.
Qed.

Lemma bind_Err {A B : Type} (c : M A) (f : A -> M B) w st e st' :
  (c ≫= f) w st = (Err e, st') ->
  c w st = (Err e, st')
  \/ exists a st1, c w st = (Ok a, st1) /\ f a w st1 = (Err e, st').
Proof.
  rewrite bind_run. destruct (c w st) as [[a|e0] st1]; [|intros H; left; injection H as -> ->; reflexivity].
  intros H. right. exists a, st1. auto.
Qed.

Lemma try_catch_throw_Err {A : Type} (c : M A) (e' : string) w st e st' :
  try_catch c (fun _ => throw e') w st = (Err e, st') -> exists e0, c w st = (Err e0, st').
Proof.
  unfold try_catch, throw. destruct (c w st) as [[a|e0] st1]; [discriminate|].
  intros H. injection H as _ <-. eauto.
Qed.




(** X17.  A chat turn that fails leaves no message behind: afterwards
    every stored session is a session that was stored before, unchanged, or
    an empty one. *)
Theorem failed_chat_stores_no_message request w st e st' :
  processChat request w st = (Err e, st') ->
  forall sid s, conversationSessions st' !! sid = Some s ->
                conversationSessions st !! sid = Some s \/ messages s = [].
Proof.
  intros H sid s Hs. unfold processChat in H.
  apply try_catch_throw_Err in H as [e0 Hbody].
  destruct (negb (JS.truthy (req_userApiKey request)));
    [unfold throw in Hbody; injection Hbody as _ <-; auto|].
  apply bind_Err in Hbody as [Hbody|(w0 & sta & Hw & Hbody)]; [discriminate|].
  injection Hw as <- <-.
  apply bind_Err in Hbody as [Hbody|(userMessage & stb & Hm & Hbody)].
  { unfold createChatMessage in Hbody. munfold. discriminate. }
  assert (stb = st) as ->.
  { unfold createChatMessage in Hm. munfold. injection Hm as _ <-. reflexivity. }
  apply bind_Err in Hbody as [Hbody|(stf & std & Hst & Hbody)]; [discriminate|].
  injection Hst as <- <-.
  remember (set_uuid (more_uuids w 0) w) as w1 eqn:Hw1.
  destruct (getChatContext_sessions (req_message request) (req_userId request)
              (req_userApiKey request) w1 st) as (cc' & Hok & Hc1 & _).
  assert (Hgrow : forall st0, conversationSessions st0
                              = conversationSessions
                                  (getCurrentSession (req_userId request) w1 st).2 ->
                  conversationSessions st0 !! sid = Some s ->
                  conversationSessions st !! sid = Some s \/ messages s = []).
  { intros st0 E Hl. rewrite E, getCurrentSession_spec in Hl.
    destruct (current_ref (req_userId request) st); [auto|].
    unfold with_new_session in Hl. simpl in Hl.
    destruct (decide (uuid w1 = sid)) as [<-|Hne].
    - rewrite lookup_insert_eq in Hl. injection Hl as <-. auto.
    - rewrite lookup_insert_ne in Hl by exact Hne. auto. }
  apply bind_Err in Hbody as [Hbody|(cc & st1 & Hcc & Hbody)].
  { unfold with_uuid in Hbody. rewrite <- Hw1 in Hbody. rewrite Hbody in Hok. discriminate. }
  unfold with_uuid in Hcc. rewrite <- Hw1 in Hcc.
  rewrite Hcc in Hc1. cbn [snd] in Hc1.
  pose proof (session_neutral_searchDocuments (req_message request) (req_userId request)
                (req_userApiKey request) 3 w st1) as [Hc2 _].
  apply bind_Err in Hbody as [Hbody|(docs & st2 & Hdocs & Hbody)].
  { destruct (searchDocuments_Ok (req_message request) (req_userId request)
                (req_userApiKey request) 3 w st1) as [f Hf].
    rewrite Hbody in Hf. discriminate. }
  rewrite Hdocs in Hc2. cbn [snd] in Hc2.
  apply bind_Err in Hbody as [Hbody|(text & st3 & Htext & Hbody)].
  { destruct (llm_invoke w _ _); [discriminate|]. unfold throw in Hbody.
    injection Hbody as _ <-. apply (Hgrow st2); [congruence|exact Hs]. }
  exfalso. unfold with_now in Hbody.
  apply bind_Err in Hbody as [Hbody|(am & st4 & _ & Hbody)].
  { unfold with_uuid, createChatMessage in Hbody. munfold. discriminate. }
  apply bind_Err in Hbody as [Hbody|(stg & sth & Hst & Hbody)]; [discriminate|].
  injection Hst as <- <-.
  apply bind_Err in Hbody as [Hbody|([] & st5 & _ & Hbody)].
  { unfold with_uuid in Hbody.
    match type of Hbody with
    | addChatMessage ?m ?k ?w' ?s' = _ =>
        pose proof (addChatMessage_Ok m k w' s') as Hok1; rewrite Hbody in Hok1; discriminate
    end. }
  apply bind_Err in Hbody as [Hbody|([] & st6 & _ & Hbody)]; [|discriminate].
  unfold with_uuid in Hbody.
  match type of Hbody with
  | addChatMessage ?m ?k ?w' ?s' = _ =>
      pose proof (addChatMessage_Ok m k w' s') as Hok2; rewrite Hbody in Hok2; discriminate
  end.
Qed.

Lemma failed_chat_stores_no_message_witness :
  conversationSessions one_recent_message !! "s-alice"
  = Some (mkSession "s-alice" "alice" [Samples.hello_alice] 0 0)
  \/ messages (mkSession "s-alice" "alice" [Samples.hello_alice] 0 0) = [].
Proof.
  apply (failed_chat_stores_no_message (mkChatRequest "hi" "alice" (Some "sk-1"))
           Samples.provider_down one_recent_message "Failed to process chat message"
           (processChat (mkChatRequest "hi" "alice" (Some "sk-1")) Samples.provider_down
              one_recent_message).2 ltac:(vm_compute; reflexivity) "s-alice").
  vm_compute. reflexivity.
Defined.

(** ** More on the document service *)

(** What [addDocuments] leaves in the index. *)
Lemma store_addDocuments_outcome docs w st index r st' :
  vectorStore st = Some index ->
  try_catch (store_addDocuments docs) throw w st = (r, st') ->
  vectorStore st' = Some (if r is Ok _ then index ++ docs else index).
Proof.
  intros Hs. rewrite try_catch_rethrow. unfold store_addDocuments. munfold.
  rewrite Hs. destruct (addDocuments_ok w docs); intros H; injection H as <- <-; simpl; auto.
Qed.

Lemma addDocuments_outcome docs key w st r st' :
  addDocuments docs key w st = (r, st') ->
  match r with
  | Ok _ =>
      exists base,
        vectorStore st' = Some (base ++ docs)
        /\ (vectorStore st = Some base
            \/ (vectorStore st = None
                /\ base = sentinel :: embedded w (pendingMessages st)))
  | Err _ =>
      vectorStore st' = vectorStore st
      \/ (vectorStore st = None
          /\ vectorStore st' = Some (sentinel :: embedded w (pendingMessages st)))
  end.
Proof.
  unfold addDocuments. destruct (negb (JS.truthy_str key)) eqn:Hk.
  { intros H. injection H as <- <-. auto. }
  apply negb_false_iff in Hk.
  rewrite bind_run. unfold get_state at 1. cbv iota beta. rewrite bind_run.
  destruct (vectorStore st) as [index|] eqn:Hs.
  - cbn [mret M_ret]. intros H.
    apply (store_addDocuments_outcome _ _ _ index) in H; [|exact Hs].
    destruct r; [exists index; auto|left; congruence].
  - rewrite initializeVectorStoreWithKey_spec, Hk.
    destruct (fromTexts_ok w); [|intros H; injection H as <- <-; auto].
    destruct (all_embedded w (pendingMessages st)).
    2:{ intros H. injection H as <- <-. simpl. auto. }
    intros H.
    apply (store_addDocuments_outcome _ _ _ (sentinel :: embedded w (pendingMessages st)))
      in H; [|reflexivity].
    destruct r; [exists (sentinel :: embedded w (pendingMessages st)); auto|right; auto].
Qed.

Lemma no_chunk_in_seeded_index w ms d :
  d ∈ sentinel :: embedded w ms -> md_type (metadata d) <> Some "document_chunk".
Proof.
  intros Hd. apply elem_of_cons in Hd as [->|Hd]; [discriminate|].
  unfold embedded in Hd. apply list_elem_of_fmap in Hd as (m & -> & _). discriminate.
Qed.

(** X19.  A [processDocument] that fails rejects with a message that
    starts with [Document processing failed: ] and has added no chunk: every
    item of type [document_chunk] that the index holds afterwards was in the
    index before. *)
Theorem failed_upload_indexes_no_chunk splitText file u key w st e st' :
  processDocument splitText file u key w st = (Err e, st') ->
  String.prefix "Document processing failed: " e = true
  /\ forall index' d,
       vectorStore st' = Some index' -> d ∈ index' ->
       md_type (metadata d) = Some "document_chunk" ->
       exists index, vectorStore st = Some index /\ d ∈ index.
Proof.
  unfold processDocument, try_catch. intros H.
  destruct (_ w st) as [[pd|e0] st1] eqn:Hbody in H; [discriminate H|].
  unfold throw in H. injection H as <- <-.
  split; [destruct e0; reflexivity|].
  assert (Hkeep : vectorStore st1 = vectorStore st ->
                  forall index' d, vectorStore st1 = Some index' -> d ∈ index' ->
                    md_type (metadata d) = Some "document_chunk" ->
                    exists index, vectorStore st = Some index /\ d ∈ index).
  { intros E index' d Hs Hd _. rewrite E in Hs. eauto. }
  destruct (negb (JS.truthy_str key)).
  { unfold throw in Hbody. injection Hbody as _ <-. apply Hkeep. reflexivity. }
  apply bind_Err in Hbody as [Hbody|(text & st2 & Htext & Hbody)].
  { apply Hkeep. destruct (bool_decide (mimetype file = "text/plain")); [discriminate Hbody|].
    destruct (bool_decide (mimetype file = "application/pdf"));
      [|injection Hbody as _ <-; reflexivity].
    destruct (pdf_text file); [discriminate Hbody|]. injection Hbody as _ <-. reflexivity. }
  assert (st2 = st) as ->.
  { destruct (bool_decide (mimetype file = "text/plain")).
    - injection Htext as _ <-. reflexivity.
    - destruct (bool_decide (mimetype file = "application/pdf")); [|discriminate Htext].
      destruct (pdf_text file); [|discriminate Htext]. injection Htext as _ <-. reflexivity. }
  apply bind_Err in Hbody as [Hbody|(w0 & st3 & Hw & Hbody)]; [discriminate Hbody|].
  injection Hw as <- <-.
  apply bind_Err in Hbody as [Hbody|([] & st4 & _ & Hbody)]; [|discriminate Hbody].
  apply addDocuments_outcome in Hbody as [Hbody|[Hnone Hbody]]; [apply Hkeep, Hbody|].
  intros index' d Hs Hd Ht. rewrite Hbody in Hs. injection Hs as <-.
  apply no_chunk_in_seeded_index in Hd. contradiction.
Qed.

Lemma failed_upload_indexes_no_chunk_witness :
  String.prefix "Document processing failed: "
                "Document processing failed: EmbeddingProviderError" = true
  /\ forall index' d,
    vectorStore (processDocument textSplitter_splitText note "alice" "sk-1"
                   Samples.provider_flaky Samples.indexed).2 = Some index' ->
    d ∈ index' ->
    md_type (metadata d) = Some "document_chunk" ->
    exists index, vectorStore Samples.indexed = Some index /\ d ∈ index.
Proof.
  apply (failed_upload_indexes_no_chunk textSplitter_splitText note "alice" "sk-1"
           Samples.provider_flaky Samples.indexed
           "Document processing failed: EmbeddingProviderError"
           (processDocument textSplitter_splitText note "alice" "sk-1"
              Samples.provider_flaky Samples.indexed).2).
  vm_compute. reflexivity.
Defined.

Lemma documentMap_add_spec docs : forall documentMap,
  NoDup documentMap.*1 ->
  let listed := foldl documentMap_add documentMap docs in
  NoDup listed.*1
  /\ length listed <= length documentMap + length docs
  /\ forall docId info, (docId, info) ∈ listed ->
       (docId, info) ∈ documentMap
       \/ exists doc, doc ∈ docs
                      /\ md_documentId (metadata doc) = Some docId
                      /\ JS.truthy_str docId = true
                      /\ md_type (metadata doc) = Some "document_chunk"
                      /\ info = mkDocumentInfo docId (md_fileName (metadata doc))
                                  (md_fileType (metadata doc))
                                  (md_uploadedAt (metadata doc))
                                  (md_totalChunks (metadata doc)).
Proof.
  induction docs as [|doc docs IH]; intros documentMap Hnd; simpl.
  { split; [exact Hnd|]. split; [lia|]. auto. }
  assert (Hstep : NoDup (documentMap_add documentMap doc).*1
                  /\ length (documentMap_add documentMap doc) <= S (length documentMap)
                  /\ forall docId info, (docId, info) ∈ documentMap_add documentMap doc ->
                       (docId, info) ∈ documentMap
                       \/ (md_documentId (metadata doc) = Some docId
                           /\ JS.truthy_str docId = true
                           /\ md_type (metadata doc) = Some "document_chunk"
                           /\ info = mkDocumentInfo docId (md_fileName (metadata doc))
                                       (md_fileType (metadata doc))
                                       (md_uploadedAt (metadata doc))
                                       (md_totalChunks (metadata doc)))).
  { unfold documentMap_add.
    destruct (md_documentId (metadata doc)) as [docId|]; [|split; [exact Hnd|split; [lia|auto]]].
    destruct (JS.truthy_str docId) eqn:Ht; cbn [andb];
      [|split; [exact Hnd|split; [lia|auto]]].
    destruct (bool_decide (md_type (metadata doc) = Some "document_chunk")) eqn:Hty;
      [|split; [exact Hnd|split; [lia|auto]]].
    apply bool_decide_eq_true in Hty.
    destruct (bool_decide (docId ∈ documentMap.*1)) eqn:Hin;
      [split; [exact Hnd|split; [lia|auto]]|].
    apply bool_decide_eq_false in Hin. split; [|split].
    - rewrite fmap_app. apply NoDup_app. split; [exact Hnd|]. split.
      + intros k Hk Hk'. apply list_elem_of_singleton in Hk'. simpl in Hk'. subst k. auto.
      + apply NoDup_singleton.
    - rewrite length_app. simpl. lia.
    - intros k info Hk. apply elem_of_app in Hk as [Hk|Hk]; [auto|].
      apply list_elem_of_singleton in Hk. injection Hk as -> ->. right. auto. }
  destruct Hstep as (Hnd1 & Hlen1 & Hin1).
  destruct (IH _ Hnd1) as (Hnd2 & Hlen2 & Hin2).
  split; [exact Hnd2|]. split; [lia|].
  intros docId info Hl. apply Hin2 in Hl as [Hl|(doc' & Hd & Hrest)].
  - apply Hin1 in Hl as [Hl|Hl]; [auto|]. right. exists doc. split; [left|exact Hl].
  - right. exists doc'. split; [right; exact Hd|exact Hrest].
Qed.

Lemma documentMap_add_ids docs : forall documentMap,
  Forall (fun entry => di_id entry.2 = entry.1) documentMap ->
  Forall (fun entry => di_id entry.2 = entry.1) (foldl documentMap_add documentMap docs).
Proof.
  induction docs as [|doc docs IH]; intros documentMap H; simpl; [exact H|].
  apply IH. unfold documentMap_add.
  destruct (md_documentId (metadata doc)) as [docId|]; [|exact H].
  destruct (_ && _); [|exact H].
  destruct (bool_decide _); [exact H|].
  apply Forall_app. split; [exact H|]. constructor; [reflexivity|constructor].
Qed.

Lemma documentMap_add_keeps documentMap doc docId :
  docId ∈ documentMap.*1 -> docId ∈ (documentMap_add documentMap doc).*1.
Proof.
  intros H. unfold documentMap_add.
  destruct (md_documentId (metadata doc)) as [docId'|]; [|exact H].
  destruct (_ && _); [|exact H]. destruct (bool_decide _); [exact H|].
  rewrite fmap_app. apply elem_of_app. left. exact H.
Qed.

Lemma documentMap_add_complete docs : forall documentMap doc docId,
  doc ∈ docs ->
  md_documentId (metadata doc) = Some docId ->
  JS.truthy_str docId = true ->
  md_type (metadata doc) = Some "document_chunk" ->
  docId ∈ (foldl documentMap_add documentMap docs).*1.
Proof.
  assert (Hkeep : forall docs documentMap docId,
            docId ∈ documentMap.*1 -> docId ∈ (foldl documentMap_add documentMap docs).*1).
  { intros l. induction l as [|d l IH]; intros documentMap docId H; simpl; [exact H|].
    apply IH, documentMap_add_keeps, H. }
  induction docs as [|d docs IH]; intros documentMap doc docId Hd Hid Ht Hty.
  { by apply elem_of_nil in Hd. }
  simpl. apply elem_of_cons in Hd as [->|Hd]; [|eapply IH; eassumption].
  apply Hkeep. unfold documentMap_add. rewrite Hid, Ht.
  rewrite bool_decide_eq_true_2 by exact Hty. cbn [andb].
  destruct (bool_decide (docId ∈ documentMap.*1)) eqn:Hin.
  - apply bool_decide_eq_true in Hin. exact Hin.
  - rewrite fmap_app. apply elem_of_app. right. apply list_elem_of_singleton. reflexivity.
Qed.

(** X20.  [getDocumentList] never rejects and leaves the service as the
    search it runs leaves it.  What it lists is read off the documents that
    [searchRelevantDocuments] returns for the empty query and the limit 100:
    every entry has the id, file name and number of chunks of one of these
    documents, a chunk that carries the caller's id; every such chunk with a
    non-empty document id has its document listed; no id is listed twice,
    and at most 100 are.  Without a key the list is empty and the service is
    left as it was. *)
Theorem getDocumentList_lists_each_document_once u key w st :
  exists docs infos,
    (searchRelevantDocuments "" u key 100 w st).1 = Ok docs
    /\ (getDocumentList u key w st).1 = Ok infos
    /\ (getDocumentList u key w st).2 = (searchRelevantDocuments "" u key 100 w st).2
    /\ NoDup (di_id <$> infos)
    /\ length infos <= 100
    /\ (forall info, info ∈ infos ->
          di_id info <> EmptyString
          /\ exists doc,
               doc ∈ docs
               /\ md_documentId (metadata doc) = Some (di_id info)
               /\ md_userId (metadata doc) = Some u
               /\ md_type (metadata doc) = Some "document_chunk"
               /\ di_fileName info = md_fileName (metadata doc)
               /\ di_totalChunks info = md_totalChunks (metadata doc))
    /\ (forall doc docId,
          doc ∈ docs -> md_documentId (metadata doc) = Some docId ->
          docId <> EmptyString -> md_type (metadata doc) = Some "document_chunk" ->
          docId ∈ di_id <$> infos)
    /\ (JS.truthy key = false -> infos = [] /\ (getDocumentList u key w st).2 = st).
Proof.
  unfold getDocumentList, try_catch.
  destruct (negb (JS.truthy key)) eqn:Hk.
  { exists [], []. unfold searchRelevantDocuments. rewrite Hk. simpl.
    split; [reflexivity|]. split; [reflexivity|]. split; [reflexivity|].
    split; [constructor|]. split; [lia|].
    split; [intros info Hi; by apply elem_of_nil in Hi|].
    split; [intros doc docId Hd; by apply elem_of_nil in Hd|auto]. }
  apply negb_false_iff in Hk. rewrite bind_run.
  destruct (searchRelevantDocuments_shape "" u key 100 w st) as (docs & Hr & Hshape).
  destruct (searchRelevantDocuments "" u key 100 w st) as [r st1]. simpl in Hr. subst r.
  cbn [mret M_ret fst snd].
  assert (Hown : forall d, d ∈ docs -> md_userId (metadata d) = Some u).
  { intros d Hd. destruct Hshape as [->|[[results ->]|[results ->]]].
    - by apply elem_of_nil in Hd.
    - apply selection_elem in Hd as [score Hd]. eapply document_hit_user, Hd.
    - apply selection_elem in Hd as [score Hd]. eapply document_listed_user, Hd. }
  assert (Hlen : length docs <= 100).
  { destruct Hshape as [->|[[results ->]|[results ->]]];
      [simpl; lia|apply selection_length|apply selection_length]. }
  destruct (documentMap_add_spec docs [] (NoDup_nil_2)) as (Hnd & Hl & Hin).
  pose proof (documentMap_add_ids docs [] (Forall_nil_2 _)) as Hids.
  pose proof (documentMap_add_complete docs []) as Hall.
  set (listed := foldl documentMap_add [] docs) in *.
  exists docs, listed.*2. split; [reflexivity|]. split; [reflexivity|].
  split; [reflexivity|].
  assert (Hkeys : di_id <$> listed.*2 = listed.*1).
  { rewrite <- list_fmap_compose. apply list_fmap_ext.
    intros i entry Hi. simpl. eapply Forall_lookup_1 in Hids; [exact Hids|exact Hi]. }
  split; [rewrite Hkeys; exact Hnd|].
  split; [rewrite length_fmap; simpl in Hl; lia|].
  split; [|split; [|intros Hk'; congruence]].
  - intros info Hi. apply list_elem_of_fmap in Hi as ([docId info'] & -> & Hi).
    apply Hin in Hi as [Hi|(doc & Hd & Hid & Ht & Hty & ->)]; [by apply elem_of_nil in Hi|].
    cbn [snd di_id di_fileName di_totalChunks].
    split; [intros ->; discriminate Ht|].
    exists doc. split; [exact Hd|]. auto.
  - intros doc docId Hd Hid Hne Hty. rewrite Hkeys.
    apply (Hall doc docId Hd Hid); [|exact Hty]. destruct docId; [congruence|reflexivity].
Qed.

Lemma getRecentMessages_Ok u limit w st :
  exists recent,
    getRecentMessages u limit w st = (Ok recent, (getRecentMessages u limit w st).2)
    /\ length recent <= match limit with Some (S n) => S n | _ => MAX_RECENT_MESSAGES end.
Proof.
  unfold getRecentMessages. rewrite bind_run, getCurrentSession_spec.
  set (lim := match limit with Some (S n) => S n | _ => MAX_RECENT_MESSAGES end).
  assert (Hlim : exists n, lim = S n).
  { unfold lim, MAX_RECENT_MESSAGES. destruct limit as [[|n]|]; eauto. }
  destruct Hlim as [n Hn].
  destruct (current_ref u st); munfold; simpl; eexists; (split; [reflexivity|]);
    rewrite Hn; unfold JS.slice_last; rewrite length_drop; lia.
Qed.

(** X21.  [GET /api/chat/history] never searches the index: the route
    passes no key, so with a query, whatever its text, the answer is built
    from the recent messages of the user's current session (at most 15 of
    them, cut to [limit], to 20 without one), and without a query it is
    empty; the index and the queue are as before. *)
Theorem history_route_reads_the_session_only u query limit w st :
  JS.truthy_str u = true ->
  exists recent,
    (getRecentMessages u None w st).1 = Ok recent
    /\ length recent <= 15
    /\ (history_route (Some u) query limit w st).1
       = Ok (inl (if JS.truthy query
                  then (JS.slice_first (match limit with Some (S n) => S n | _ => 20 end)
                          (entry_of_message <$> recent),
                        length recent)
                  else ([], 0)))
    /\ vectorStore (history_route (Some u) query limit w st).2 = vectorStore st
    /\ pendingMessages (history_route (Some u) query limit w st).2 = pendingMessages st.
Proof.
  intros Hu.
  destruct (getRecentMessages_Ok u None w st) as (recent & Hr & Hlen).
  exists recent. split; [rewrite Hr; reflexivity|].
  split; [unfold MAX_RECENT_MESSAGES in Hlen; exact Hlen|].
  unfold history_route. cbn [JS.truthy]. rewrite Hu. cbn [negb].
  change (default "" (Some u)) with u.
  unfold try_catch, getChatHistory. rewrite bind_run.
  destruct (JS.truthy query).
  - cbn [JS.truthy negb]. rewrite bind_run, Hr. cbn [mret M_ret fst snd].
    rewrite length_fmap. split; [reflexivity|].
    rewrite getRecentMessages_state, getCurrentSession_spec.
    destruct (current_ref u st); auto.
  - cbn [mret M_ret fst snd]. unfold JS.slice_first. rewrite take_nil. auto.
Qed.

Lemma history_route_reads_the_session_only_witness :
  exists recent,
    (getRecentMessages "alice" None Samples.provider_up one_recent_message).1 = Ok recent
    /\ length recent <= 15
    /\ (history_route (Some "alice") (Some "budget") None Samples.provider_up
          one_recent_message).1
       = Ok (inl (JS.slice_first 20 (entry_of_message <$> recent), length recent))
    /\ vectorStore (history_route (Some "alice") (Some "budget") None Samples.provider_up
                      one_recent_message).2 = vectorStore one_recent_message
    /\ pendingMessages (history_route (Some "alice") (Some "budget") None Samples.provider_up
                          one_recent_message).2 = pendingMessages one_recent_message.
Proof.
  apply (history_route_reads_the_session_only "alice" (Some "budget") None
           Samples.provider_up one_recent_message).
  reflexivity.
Defined.
